(** * jobpt_crawler: link discovery, detail fetching and indexing hand-off

    A shallow embedding of [jobpt_crawler.py].  Python values are modelled
    as the program has them: a [str] is a sequence of Unicode code points,
    a [dict] is an insertion-ordered association list, a [set] is the list
    of its members, an [int] is a [Z].  The browser, the clock, the file
    system and the vector store are external collaborators: they appear as
    the operations of a type class over an abstract world state, and every
    general theorem holds for every implementation of that class. *)

From Stdlib Require Import String Ascii DecimalString.
From Stdlib Require Import List ZArith NArith Bool Lia Permutation Sorted.
Import ListNotations.

Set Implicit Arguments.

(** ** Python strings *)

Module PyStr.

(** A Python [str]: its code points, in order. *)
Definition str := list N.

Local Open Scope N_scope.

(** UTF-8 decoding, used only to write string constants of the source
    as Rocq string literals. *)
Fixpoint utf8_decode (bs : list N) : str :=
  match bs with
  | [] => []
  | b0 :: r0 =>
    if b0 <? 128 then b0 :: utf8_decode r0
    else
      match r0 with
      | [] => []
      | b1 :: r1 =>
        if b0 <? 224 then (b0 mod 32 * 64 + b1 mod 64) :: utf8_decode r1
        else
          match r1 with
          | [] => []
          | b2 :: r2 =>
            if b0 <? 240
            then (b0 mod 16 * 4096 + b1 mod 64 * 64 + b2 mod 64) :: utf8_decode r2
            else
              match r2 with
              | [] => []
              | b3 :: r3 =>
                (b0 mod 8 * 262144 + b1 mod 64 * 4096 + b2 mod 64 * 64 + b3 mod 64)
                  :: utf8_decode r3
              end
          end
      end
  end.

Fixpoint bytes_of_string (s : string) : list N :=
  match s with
  | EmptyString => []
  | String c s' => N_of_ascii c :: bytes_of_string s'
  end.

(** [u "text"] is the Python literal ["text"]. *)
Definition u (s : string) : str := utf8_decode (bytes_of_string s).

(** [a == b] *)
Fixpoint str_eqb (a b : str) : bool :=
  match a, b with
  | [], [] => true
  | x :: a', y :: b' => (x =? y) && str_eqb a' b'
  | _, _ => false
  end.

(** Truth value of a [str]: non-empty. *)
Definition truthy (s : str) : bool :=
  match s with [] => false | _ :: _ => true end.

(** The characters and tokens [clean] names. *)
Definition BULLET : N := 0x2022.        (* "•" *)
Definition BLACK_SQUARE : N := 0x25A0.  (* "■" *)
Definition NEWLINE : N := 10.           (* "\n" *)
Definition BACKSLASH : N := 92.
Definition LETTER_N : N := 110.
Definition SPACE : N := 32.
Definition ZWSP : N := 0x200B.          (* zero-width space *)
Definition NBSP : N := 0xA0.            (* "\xa0" *)

Definition BACKSLASH_N : str := [BACKSLASH; LETTER_N].  (* "\\n" *)
Definition DOUBLE_SPACE : str := [SPACE; SPACE].

(** [s.startswith(p)] *)
Fixpoint starts_with (p s : str) : bool :=
  match p, s with
  | [], _ => true
  | _ :: _, [] => false
  | a :: p', b :: s' => (a =? b) && starts_with p' s'
  end.

(** [p in s]: [p] occurs in [s] as a substring. *)
Fixpoint occurs (p s : str) : bool :=
  starts_with p s ||
  match s with
  | [] => false
  | _ :: s' => occurs p s'
  end.

(** [str.replace] for a non-empty pattern: one scan from the left; each
    occurrence found is replaced and the scan resumes after it, so the
    occurrences replaced do not overlap and the text put in is not
    scanned again.  [skip] counts the characters of the occurrence just
    replaced that are still to be passed over. *)
Fixpoint replace_from (skip : nat) (old new s : str) : str :=
  match s with
  | [] => []
  | c :: s' =>
    match skip with
    | S k => replace_from k old new s'
    | O =>
      if starts_with old s
      then new ++ replace_from (length old - 1) old new s'
      else c :: replace_from 0 old new s'
    end
  end.

(** [s.replace(old, new)]; with an empty pattern Python puts [new]
    before every character and at the end. *)
Definition replace (old new s : str) : str :=
  match old with
  | [] => new ++ flat_map (fun c => c :: new) s
  | _ :: _ => replace_from 0 old new s
  end.

(** Python's [str.isspace] on one code point (Unicode White_Space plus
    the separators U+001C to U+001F). *)
Definition is_space (c : N) : bool :=
  ((9 <=? c) && (c <=? 13)) || ((28 <=? c) && (c <=? 32)) ||
  (c =? 0x85) || (c =? 0xA0) || (c =? 0x1680) ||
  ((0x2000 <=? c) && (c <=? 0x200A)) ||
  (c =? 0x2028) || (c =? 0x2029) || (c =? 0x202F) || (c =? 0x205F) ||
  (c =? 0x3000).

Fixpoint lstrip (s : str) : str :=
  match s with
  | [] => []
  | c :: s' => if is_space c then lstrip s' else s
  end.

Definition rstrip (s : str) : str := rev (lstrip (rev s)).

(** [s.strip()] *)
Definition strip (s : str) : str := rstrip (lstrip s).

(** No whitespace at either end. *)
Definition trimmed (s : str) : Prop :=
  match s with
  | [] => True
  | c :: _ => is_space c = false /\ is_space (last s c) = false
  end.

End PyStr.

Import PyStr.

(** ** Python objects *)

(** The dynamically typed values the program passes around. *)
Inductive pyobj : Type :=
| PyNone
| PyBool (b : bool)
| PyInt (z : Z)
| PyStr (s : str).

(** [isinstance(x, str)] *)
Definition isinstance_str (x : pyobj) : bool :=
  match x with
  | PyStr _ => true
  | _ => false
  end.

(** A [dict] with [str] keys: insertion-ordered, one entry per key. *)
Definition dict := list (str * pyobj).

Fixpoint dict_get (k : str) (d : dict) : option pyobj :=
  match d with
  | [] => None
  | (k', v) :: d' => if str_eqb k k' then Some v else dict_get k d'
  end.

(** [k in d] *)
Definition dict_has (k : str) (d : dict) : bool :=
  match dict_get k d with
  | Some _ => true
  | None => false
  end.

(** [d[k] = v]: overwrite in place, or append a new entry. *)
Fixpoint dict_set (k : str) (v : pyobj) (d : dict) : dict :=
  match d with
  | [] => [(k, v)]
  | (k', v') :: d' =>
    if str_eqb k k' then (k', v) :: d' else (k', v') :: dict_set k v d'
  end.

(** [d.update(e)] *)
Definition dict_update (d e : dict) : dict :=
  fold_left (fun acc kv => dict_set (fst kv) (snd kv) acc) e d.

Definition dict_keys (d : dict) : list str := map fst d.

(** [d.get(k, '')] *)
Definition field (k : str) (d : dict) : pyobj :=
  match dict_get k d with
  | Some v => v
  | None => PyStr []
  end.

(** [str(x)], as an f-string renders a value. *)
Definition py_str (x : pyobj) : str :=
  match x with
  | PyNone => u "None"
  | PyBool true => u "True"
  | PyBool false => u "False"
  | PyInt z => u (NilEmpty.string_of_int (Z.to_int z))
  | PyStr s => s
  end.

(** [sep.join(parts)] *)
Fixpoint join (sep : str) (parts : list str) : str :=
  match parts with
  | [] => []
  | [p] => p
  | p :: rest => p ++ sep ++ join sep rest
  end.

(** Every value is a [str]. *)
Definition text_valued (d : dict) : Prop :=
  Forall (fun kv => exists s, snd kv = PyStr s) d.

(** The keys of a record before its sections. *)
Definition head_keys : list str :=
  [u "url"; u "title"; u "company"; u "마감일"; u "근무지역"].

(** ** Text normalisation *)

(** The chain of replacements of [clean], on a [str]. *)
Definition clean_str (text : str) : str :=
  strip
    (replace [NBSP] [SPACE]
      (replace [ZWSP] []
        (replace DOUBLE_SPACE [SPACE]
          (replace BACKSLASH_N [SPACE]
            (replace [NEWLINE] [SPACE]
              (replace [BLACK_SQUARE] []
                (replace [BULLET] [] text))))))).

(** [clean(text)] *)
Definition clean (text : pyobj) : str :=
  match text with
  | PyStr s => clean_str s
  | _ => []
  end.

(** What the normalised text is said to guarantee. *)
Definition junk_free (r : str) : Prop :=
  trimmed r /\
  ~ In BULLET r /\ ~ In BLACK_SQUARE r /\
  ~ In ZWSP r /\ ~ In NBSP r /\
  ~ In NEWLINE r /\ occurs BACKSLASH_N r = false /\
  occurs DOUBLE_SPACE r = false.

(** The part of it that one pass of each replacement gives. *)
Definition single_junk_free (r : str) : Prop :=
  trimmed r /\
  ~ In BULLET r /\ ~ In BLACK_SQUARE r /\
  ~ In ZWSP r /\ ~ In NBSP r /\ ~ In NEWLINE r.

(** ** Effects: a world state threaded through, and exceptions *)

(** An exception of class [Exception] (what [except Exception] catches). *)
Inductive exn : Type :=
| Exception (what : string).

Module Eff.

Section Monad.

Variable W : Type.

(** A computation reads and changes the world and either raises or
    returns. *)
Definition M (A : Type) : Type := W -> (exn + A) * W.

Definition ret {A} (a : A) : M A := fun w => (inr a, w).

Definition bind {A B} (c : M A) (k : A -> M B) : M B :=
  fun w =>
    match c w with
    | (inr a, w') => k a w'
    | (inl e, w') => (inl e, w')
    end.

Definition raise {A} (e : exn) : M A := fun w => (inl e, w).

(** [try: c  except Exception as e: h e] *)
Definition try_except {A} (c : M A) (h : exn -> M A) : M A :=
  fun w =>
    match c w with
    | (inr a, w') => (inr a, w')
    | (inl e, w') => h e w'
    end.

(** [try: c  finally: f] *)
Definition try_finally {A} (c : M A) (f : M unit) : M A :=
  fun w =>
    match c w with
    | (r, w') =>
      match f w' with
      | (inr _, w'') => (r, w'')
      | (inl e, w'') => (inl e, w'')
      end
    end.

(** An effect that cannot raise. *)
Definition effect (f : W -> W) : M unit := fun w => (inr tt, f w).

(** A read of the world. *)
Definition observe {A} (f : W -> A) : M A := fun w => (inr (f w), w).

(** A call that leaves the world alone and either raises or returns. *)
Definition lift {A} (r : exn + A) : M A := fun w => (r, w).

End Monad.

Arguments ret {W A} a.
Arguments raise {W A} e.
Arguments effect {W} f.
Arguments observe {W A} f.
Arguments lift {W A} r.

Declare Scope eff_scope.
Delimit Scope eff_scope with eff.

Notation "x <- c ;; k" := (bind c (fun x => k))
  (at level 61, c at next level, right associativity) : eff_scope.
Notation "c ;; k" := (bind c (fun _ => k))
  (at level 61, right associativity) : eff_scope.

End Eff.

Import Eff.
Local Open Scope eff_scope.

(** ** Collaborators *)

(** The markup parser and tree queries of BeautifulSoup.  [tag] is a node
    of the parsed tree; the parsed document is itself a [tag].  The parser
    raises on markup it rejects ([ParserRejectedMarkup]); the queries are
    made of a tree it has built. *)
Class Soup (markup tag : Type) : Type := {
  (** [BeautifulSoup(markup, "html.parser")] *)
  BeautifulSoup : markup -> exn + tag;
  (** [t.select(css)]: every match, in document order *)
  select : str -> tag -> list tag;
  (** [t.find(name, class_=c)]: first descendant with that name and class *)
  find : str -> option str -> tag -> option tag;
  (** [t.get_text(separator=sep, strip=b)] *)
  get_text : str -> bool -> tag -> str;
  (** [t.get(attribute)] *)
  attr_get : str -> tag -> option str
}.

(** [t.select_one(css)]: the first match of [select]. *)
Definition select_one {markup tag} `{Soup markup tag} (css : str) (t : tag)
  : option tag :=
  hd_error (select css t).

(** [t.text], [t.get_text()] *)
Definition text {markup tag} `{Soup markup tag} (t : tag) : str :=
  get_text [] false t.

(** An indexable document of LangChain. *)
Record Document : Type := {
  page_content : str;
  metadata : dict
}.

(** The crawl settings [JobCrawlerPinecone.__init__] reads from the
    environment, none of them validated: [max_links] and [crawl_delay]
    are [int]s, [scroll_pause] is a [float] of seconds, held here as the
    count of nanoseconds [time.sleep] makes of it. *)
Record Crawler : Type := {
  max_links : Z;
  scroll_pause : Z;   (* nanoseconds *)
  crawl_delay : Z     (* seconds *)
}.

(** The line [main] appends to [logs/crawl_summary.json].  The success
    rate is the formatted ratio of [total_crawled] to [total_links]. *)
Record Summary : Type := {
  total_links : nat;
  total_crawled : nat;
  total_saved : nat;
  backup_file : option str;
  timestamp : str
}.

(** Everything outside the process: the Selenium session, the clock, the
    file system, the vector store and the process configuration. *)
Class World (W markup element : Type) : Type := {
  (** [driver.get(url)] *)
  driver_get : str -> M W unit;
  (** [WebDriverWait(driver, t).until(presence_of_element_located(css))] *)
  wait_presence : Z -> str -> M W unit;
  (** [driver.page_source] *)
  page_source : M W markup;
  (** [driver.find_element(By.XPATH, xpath)] *)
  find_element : str -> M W element;
  (** [driver.execute_script("arguments[0].click()", el)] *)
  click : element -> M W unit;
  (** [driver.execute_script("window.scrollTo(0, document.body.scrollHeight);")] *)
  scroll_to_bottom : M W unit;
  (** [driver.execute_script("return document.body.scrollHeight")] *)
  scroll_height : M W Z;
  (** [driver.quit()] *)
  driver_quit : M W unit;
  (** the wait of [time.sleep] and [asyncio.sleep] once the delay is
      accepted: nanoseconds *)
  sleep : Z -> W -> W;
  (** [datetime.now().isoformat()] *)
  now_isoformat : W -> str;
  (** [datetime.now().strftime("%Y%m%d_%H%M%S")] *)
  now_stamp : W -> str;
  (** [JobCrawlerPinecone()]: credentials and settings *)
  new_crawler : M W Crawler;
  (** the body of [setup_pinecone_index]: find or create, then connect *)
  connect_index : M W unit;
  (** [webdriver.Chrome(options=chrome_options)] *)
  start_chrome : M W unit;
  (** [str(uuid4())] *)
  uuid4 : W -> str * W;
  (** [vectorstore.add_documents(documents=batch, ids=ids)] *)
  add_documents : list Document -> list str -> M W unit;
  (** [os.makedirs], [open(filename, 'w')], [json.dump(jobs, f)] *)
  write_json : str -> list dict -> M W unit;
  (** [os.makedirs('logs')], [open(.., 'a')], [f.write(json.dumps(summary))] *)
  append_summary : Summary -> M W unit
}.

(** A Python [set] of [str], as the list of its members in the order they
    were first added. *)
Definition pyset := list str.

Definition set_mem (x : str) (s : pyset) : bool := existsb (str_eqb x) s.

(** [s.add(x)] *)
Definition set_add (x : str) (s : pyset) : pyset :=
  if set_mem x s then s else s ++ [x].

(** The order in which a [set] yields its members.  CPython walks the hash
    table, and the hash of a [str] is salted per process, so the order is
    fixed by neither the members nor the order of insertion: it is a
    parameter, constrained only to yield each member once. *)
Class SetOrder : Type := {
  set_iter : pyset -> list str;
  set_iter_perm : forall s, NoDup s -> Permutation (set_iter s) s
}.

(** [l[:n]] *)
Definition slice_to {A} (n : Z) (l : list A) : list A :=
  if (0 <=? n)%Z then firstn (Z.to_nat n) l
  else firstn (length l - Z.to_nat (- n)) l.

(** ** The program *)

Definition BASE_URL : str := u "https://www.wanted.co.kr".

Definition LIST_URL : str :=
  BASE_URL ++
  u "/wdlist?country=kr&job_sort=job.popularity_order&years=-1&locations=all".

Definition QUOTE : str := [34%N].

(** ['div[data-cy="job-card"] a[href^="/wd/"]']: the anchor of a posting
    card on the listing page. *)
Definition CARD_LINK : str :=
  u "div[data-cy=" ++ QUOTE ++ u "job-card" ++ QUOTE ++
  u "] a[href^=" ++ QUOTE ++ u "/wd/" ++ QUOTE ++ u "]".

Definition MORE_BUTTON : str :=
  u "//button//span[contains(text(),'상세 정보 더 보기')]".

(** The six free-text sections, in the order of the [detail] literal. *)
Definition SECTION_KEYS : list str :=
  [u "포지션상세"; u "주요업무"; u "자격요건"; u "우대사항";
   u "채용 전형"; u "혜택 및 복지"].

(** The keys of the record [parse_detail] builds, in order. *)
Definition RECORD_KEYS : list str :=
  [u "url"; u "title"; u "company"; u "마감일"; u "근무지역"] ++ SECTION_KEYS.

Section Program.

Context {markup tag element W : Type}.
Context {soup_ops : Soup markup tag}.
Context {world_ops : World W markup element}.
Context {set_order : SetOrder}.

(** The delays [time.sleep] accepts: CPython holds a delay as a signed
    64-bit count of nanoseconds. *)
Definition NS_MIN : Z := - 2 ^ 63.
Definition NS_MAX : Z := 2 ^ 63 - 1.

(** [time.sleep(secs)], the delay in nanoseconds: a delay that does not
    fit raises [OverflowError] and a negative one [ValueError], both
    before any waiting.  [asyncio.sleep] is only called with the constant
    0.5, on which the two agree. *)
Definition time_sleep (ns : Z) : M W unit :=
  if (ns <? NS_MIN)%Z || (NS_MAX <? ns)%Z
  then raise (Exception "OverflowError")
  else if (ns <? 0)%Z then raise (Exception "ValueError")
  else effect (sleep ns).

(** 0.5 seconds *)
Definition HALF_SECOND : Z := 500000000.

(** [n] seconds *)
Definition seconds (n : Z) : Z := (1000000000 * n)%Z.

(** [extract_block(div)].  The tree queries of the model cannot raise,
    so the [try] around the body has nothing to catch. *)
Definition extract_block (div : tag) : str :=
  match select_one (u "span.wds-h4ga6o span") div with
  | Some span => clean (PyStr (get_text [NEWLINE] false span))
  | None => clean (PyStr (get_text [SPACE] true div))
  end.

(** One pass of the loop over the section blocks of [parse_detail]. *)
Definition section_step (detail : dict) (div : tag) : dict :=
  match find (u "h3") None div with
  | None => detail
  | Some h3 =>
    let key := clean (PyStr (text h3)) in
    let value := extract_block div in
    if dict_has key detail then dict_set key (PyStr value) detail
    else detail
  end.

(** The field extraction of [parse_detail], from the parsed page to the
    [result] literal: first the locals, then the literal. *)
Definition title_of (soup : tag) : str :=
  match select_one (u "header h1, header h2") soup with
  | Some title_el => clean (PyStr (text title_el))
  | None => []
  end.

Definition company_of (soup : tag) : str :=
  match select_one (u "header a[data-company-name]") soup with
  | Some company_el => clean (PyStr (text company_el))
  | None => []
  end.

Definition due_date_of (soup : tag) : str :=
  match find (u "article") (Some (u "JobDueTime_JobDueTime__yvhtg")) soup with
  | Some due_article =>
    match find (u "h2") None due_article with
    | Some h2 =>
      if occurs (u "마감일") (text h2) then
        match find (u "span") None due_article with
        | Some span => clean (PyStr (text span))
        | None => []
        end
      else []
    | None => []
    end
  | None => []
  end.

Definition work_location_of (soup : tag) : str :=
  match find (u "article") (Some (u "JobWorkPlace_JobWorkPlace__xPlGe")) soup with
  | Some work_article =>
    match find (u "span") None work_article with
    | Some span => clean (PyStr (text span))
    | None => []
    end
  | None => []
  end.

Definition INTRO_DIV : str :=
  u "div.JobDescription_JobDescription__paragraph__wrapper__WPrKC".

Definition SECTION_DIV : str :=
  u "div.JobDescription_JobDescription__paragraph__87w8I".

Definition empty_detail : dict := map (fun k => (k, PyStr [])) SECTION_KEYS.

Definition detail_of (soup : tag) : dict :=
  let detail :=
    match select_one INTRO_DIV soup with
    | Some intro_div =>
      dict_set (u "포지션상세") (PyStr (extract_block intro_div)) empty_detail
    | None => empty_detail
    end in
  fold_left section_step (select SECTION_DIV soup) detail.

(** [{"url": url, "title": title, .., **detail}] *)
Definition result_of (url : str) (soup : tag) : dict :=
  dict_update
    [(u "url", PyStr url); (u "title", PyStr (title_of soup));
     (u "company", PyStr (company_of soup));
     (u "마감일", PyStr (due_date_of soup));
     (u "근무지역", PyStr (work_location_of soup))]
    (detail_of soup).

(** The extraction as a whole, from the parse of the page source on: the
    parser raises on markup it rejects, and then no record is built. *)
Definition extract_record (url : str) (page : markup) : exn + dict :=
  match BeautifulSoup page with
  | inl e => inl e
  | inr soup => inr (result_of url soup)
  end.

(** The body of the [try] of one attempt of [parse_detail]: [Some] is
    [return result], [None] is [continue]. *)
Definition attempt (url : str) : M W (option dict) :=
  driver_get url ;;
  wait_presence 10 (u "h1, h2") ;;
  try_except
    (btn <- find_element MORE_BUTTON ;;
     click btn ;;
     time_sleep HALF_SECOND)
    (fun _ => ret tt) ;;
  page <- page_source ;;
  soup <- lift (BeautifulSoup page) ;;
  if truthy (title_of soup) || truthy (company_of soup)
  then ret (Some (result_of url soup))
  else ret None.

(** The [for attempt in range(retry)] loop, [n] attempts left. *)
Fixpoint parse_attempts (n : nat) (url : str) : M W (option dict) :=
  match n with
  | O => ret None
  | S k =>
    r <- try_except (attempt url)
           (fun _ => time_sleep HALF_SECOND ;; ret None) ;;
    match r with
    | Some result => ret (Some result)
    | None => parse_attempts k url
    end
  end.

(** [parse_detail(href, driver, retry)] *)
Definition parse_detail (href : str) (retry : Z) : M W (option dict) :=
  parse_attempts (Z.to_nat retry) (BASE_URL ++ href).

(** The state of the discovery loop. *)
Record session : Type := {
  hrefs : pyset;
  void_cnt : nat;
  last_height : Z
}.

(** The [for a in soup.select(..)] loop of one cycle. *)
Definition scan_step (hs : pyset) (a : tag) : pyset :=
  match attr_get (u "href") a with
  | Some href => if truthy href then set_add href hs else hs
  | None => hs
  end.

Definition scan (soup : tag) (hs : pyset) : pyset :=
  fold_left scan_step (select CARD_LINK soup) hs.

(** What one cycle of the [while] loop leaves: the state, the number of
    links it added (which the cycle logs), the height it measured if it
    got that far, and whether it left through a [break]. *)
Record cycle_end : Type := {
  next : session;
  added_count : nat;
  new_height : option Z;
  broke : bool
}.

(** The body of the [while] loop. *)
Definition cycle (max : Z) (pause : Z) (st : session) : M W cycle_end :=
  page <- page_source ;;
  soup <- lift (BeautifulSoup page) ;;
  let before_count := length (hrefs st) in
  let hs := scan soup (hrefs st) in
  let added := length hs - before_count in
  let void := if 0 <? added then 0 else void_cnt st + 1 in
  if (max <=? Z.of_nat (length hs))%Z then
    ret {| next := {| hrefs := hs; void_cnt := void;
                      last_height := last_height st |};
           added_count := added; new_height := None; broke := true |}
  else
    scroll_to_bottom ;;
    time_sleep pause ;;
    h <- scroll_height ;;
    if (h =? last_height st)%Z then
      ret {| next := {| hrefs := hs; void_cnt := void;
                        last_height := last_height st |};
             added_count := added; new_height := Some h; broke := true |}
    else
      ret {| next := {| hrefs := hs; void_cnt := void; last_height := h |};
             added_count := added; new_height := Some h; broke := false |}.

(** [len(hrefs) < self.max_links and void_cnt < 3] *)
Definition loop_test (max : Z) (st : session) : bool :=
  (Z.of_nat (length (hrefs st)) <? max)%Z && (void_cnt st <? 3).

(** The [while] loop, with the cycles it ran.  [None] only when [fuel]
    runs out. *)
Fixpoint discovery_loop (fuel : nat) (max pause : Z) (st : session)
  : M W (option (session * list cycle_end)) :=
  if loop_test max st then
    match fuel with
    | O => ret None
    | S f =>
      c <- cycle max pause st ;;
      if broke c then ret (Some (next c, [c]))
      else
        r <- discovery_loop f max pause (next c) ;;
        ret (option_map (fun sc => (fst sc, c :: snd sc)) r)
    end
  else ret (Some (st, [])).

Definition start : session :=
  {| hrefs := []; void_cnt := 0; last_height := 0 |}.

(** Cycles that always suffice: see [discovery_loop_fuel]. *)
Definition enough (max : Z) : nat := 3 * Z.to_nat max.

(** The [try] body of [collect_job_links], with the cycles it ran. *)
Definition discover (fuel : nat) (self : Crawler)
  : M W (option (list str * list cycle_end)) :=
  driver_get LIST_URL ;;
  wait_presence 30 CARD_LINK ;;
  r <- discovery_loop fuel (max_links self) (scroll_pause self) start ;;
  ret (option_map
         (fun sc => (slice_to (max_links self) (set_iter (hrefs (fst sc))),
                     snd sc)) r).

(** [collect_job_links(self)] *)
Definition collect_job_links_fuel (fuel : nat) (self : Crawler)
  : M W (option (list str)) :=
  try_except
    (r <- discover fuel self ;; ret (option_map fst r))
    (fun _ => ret (Some [])).

Definition collect_job_links (self : Crawler) : M W (list str) :=
  r <- collect_job_links_fuel (enough (max_links self)) self ;;
  ret (match r with Some links => links | None => [] end).

(** The [for i, href in enumerate(job_links)] loop of
    [crawl_job_details]; [i] is the index of the first link left. *)
Fixpoint crawl_loop (self : Crawler) (i : nat) (job_links : list str)
    (jobs : list dict) : M W (list dict) :=
  match job_links with
  | [] => ret jobs
  | href :: rest =>
    job_detail <- parse_detail href 2 ;;
    jobs <-
      match job_detail with
      | Some ((_ :: _) as d) =>
        crawled_at <- observe now_isoformat ;;
        ret (jobs ++
             [dict_update d
                [(u "source", PyStr (u "wanted"));
                 (u "crawled_at", PyStr crawled_at);
                 (u "link_index", PyInt (Z.of_nat i + 1))]])
      | _ => ret jobs
      end ;;
    time_sleep (seconds (crawl_delay self)) ;;
    crawl_loop self (S i) rest jobs
  end.

(** [crawl_job_details(self, job_links)] *)
Definition crawl_job_details (self : Crawler) (job_links : list str)
  : M W (list dict) :=
  crawl_loop self 0 job_links [].

(** The document of one record.  A record with a ["metadata"] entry would
    need a [dict] under it; no value of the model is one, so [.get] on
    it raises [AttributeError]. *)
Definition document_of (job : dict) : exn + Document :=
  let merged_text :=
    join (u " | ")
      [u "url: " ++ py_str (field (u "url") job);
       u "title: " ++ py_str (field (u "title") job);
       u "company: " ++ py_str (field (u "company") job);
       u "마감일: " ++ py_str (field (u "마감일") job);
       u "근무지역: " ++ clean (field (u "근무지역") job);
       u "신입경력: " ++ clean (field (u "신입경력") job);
       u "포지션상세: " ++ clean (field (u "포지션상세") job);
       u "주요업무: " ++ clean (field (u "주요업무") job);
       u "자격요건: " ++ clean (field (u "자격요건") job);
       u "우대사항: " ++ clean (field (u "우대사항") job);
       u "채용 전형: " ++ clean (field (u "채용 전형") job);
       u "혜택 및 복지: " ++ clean (field (u "혜택 및 복지") job)] in
  match dict_get (u "metadata") job with
  | Some _ => inl (Exception "AttributeError")
  | None =>
    inr {| page_content := merged_text;
           metadata :=
             [(u "url", field (u "url") job);
              (u "title", field (u "title") job);
              (u "company", field (u "company") job);
              (u "마감일", field (u "마감일") job);
              (u "근무지역", field (u "근무지역") job);
              (u "신입경력", field (u "신입경력") job);
              (u "source_file", PyStr []);
              (u "original_url", PyStr [])] |}
  end.

(** [create_documents(self, jobs)] *)
Fixpoint create_documents (jobs : list dict) : exn + list Document :=
  match jobs with
  | [] => inr []
  | job :: rest =>
    match document_of job with
    | inl e => inl e
    | inr doc =>
      match create_documents rest with
      | inl e => inl e
      | inr docs => inr (doc :: docs)
      end
    end
  end.

(** [range(0, n, step)] *)
Definition range_step (n step : nat) : list nat :=
  map (fun k => k * step) (seq 0 ((n + step - 1) / step)).

(** [l[i:j]] for [0 <= i <= j] *)
Definition slice {A} (i j : nat) (l : list A) : list A :=
  firstn (j - i) (skipn i l).

(** [[str(uuid4()) for _ in batch]] *)
Fixpoint fresh_ids {A} (batch : list A) : M W (list str) :=
  match batch with
  | [] => ret []
  | _ :: rest =>
    id <- (fun w => let r := uuid4 w in (inr (fst r), snd r)) ;;
    ids <- fresh_ids rest ;;
    ret (id :: ids)
  end.

Definition batch_size : nat := 10.

(** The batches of the loop: the slices at the start indices. *)
Definition batches_of {A} (l : list A) : list (list A) :=
  map (fun i => slice i (i + batch_size) l)
      (range_step (length l) batch_size).

(** The [for i in range(0, len(documents), batch_size)] loop of
    [save_to_pinecone].  A batch whose add raised is passed over by
    [continue], pause included. *)
Fixpoint save_batches (documents : list Document) (starts : list nat)
    (total_saved : nat) : M W nat :=
  match starts with
  | [] => ret total_saved
  | i :: rest =>
    let batch := slice i (i + batch_size) documents in
    ids <- fresh_ids batch ;;
    saved <- try_except
               (add_documents batch ids ;; ret true)
               (fun _ => ret false) ;;
    (if saved then time_sleep HALF_SECOND else ret tt) ;;
    save_batches documents rest
      (if saved then total_saved + length batch else total_saved)
  end.

(** [save_to_pinecone(self, documents)] *)
Definition save_to_pinecone (documents : list Document) : M W nat :=
  match documents with
  | [] => ret 0
  | _ :: _ =>
    try_except
      (save_batches documents (range_step (length documents) batch_size) 0)
      (fun _ => ret 0)
  end.

(** [save_raw_data(self, jobs)] *)
Definition save_raw_data (jobs : list dict) : M W (option str) :=
  stamp <- observe now_stamp ;;
  let filename := u "data/crawled_jobs_" ++ stamp ++ u ".json" in
  try_except
    (write_json filename jobs ;; ret (Some filename))
    (fun _ => ret None).

(** [setup_pinecone_index(self)] *)
Definition setup_pinecone_index : M W bool :=
  try_except (connect_index ;; ret true) (fun _ => ret false).

(** [setup_chrome_driver()]: whether a driver came back. *)
Definition setup_chrome_driver : M W bool :=
  try_except (start_chrome ;; ret true) (fun _ => ret false).

(** [setup_driver(self)] *)
Definition setup_driver : M W bool :=
  driver <- setup_chrome_driver ;;
  if driver then ret true else raise (Exception "ValueError").

(** [main] from the first crawl step on, the session being established.
    The value is the summary line appended, if one was. *)
Definition crawl_and_save (self : Crawler) : M W (option Summary) :=
  job_links <- collect_job_links self ;;
  match job_links with
  | [] => ret None
  | _ :: _ =>
    jobs <- crawl_job_details self job_links ;;
    match jobs with
    | [] => ret None
    | _ :: _ =>
      backup <- save_raw_data jobs ;;
      match create_documents jobs with
      | inl e => raise e
      | inr documents =>
        saved_count <- save_to_pinecone documents ;;
        now <- observe now_isoformat ;;
        let summary :=
          {| total_links := length job_links;
             total_crawled := length jobs;
             total_saved := saved_count;
             backup_file := backup;
             timestamp := now |} in
        append_summary summary ;;
        ret (Some summary)
      end
    end
  end.

(** [main()].  The [finally] quits the browser when there is one: the
    crawler exists once [new_crawler] has returned, and its driver once
    [setup_driver] has. *)
Definition main : M W (option Summary) :=
  self <- new_crawler ;;
  ok <- setup_pinecone_index ;;
  if negb ok then ret None
  else
    started <- setup_driver ;;
    if negb started then ret None
    else try_finally (crawl_and_save self) driver_quit.

(** *** Properties stated of the program *)

(** A record that says something: a title or a company. *)
Definition usable (d : dict) : Prop :=
  exists title company,
    dict_get (u "title") d = Some (PyStr title) /\
    dict_get (u "company") d = Some (PyStr company) /\
    (title <> [] \/ company <> []).

(** A usable record with no entry of its own under ["metadata"]. *)
Definition tagged (d : dict) : Prop :=
  usable d /\ dict_get (u "metadata") d = None.

(** The element a field is read from is absent from the page.  For a
    section that means no block is headed by its key, and for the
    position detail also that its own container is missing. *)
Inductive absent (soup : tag) : str -> Prop :=
| absent_title :
    select_one (u "header h1, header h2") soup = None ->
    absent soup (u "title")
| absent_company :
    select_one (u "header a[data-company-name]") soup = None ->
    absent soup (u "company")
| absent_due_date :
    find (u "article") (Some (u "JobDueTime_JobDueTime__yvhtg")) soup = None ->
    absent soup (u "마감일")
| absent_due_heading article :
    find (u "article") (Some (u "JobDueTime_JobDueTime__yvhtg")) soup
      = Some article ->
    find (u "h2") None article = None ->
    absent soup (u "마감일")
| absent_due_value article :
    find (u "article") (Some (u "JobDueTime_JobDueTime__yvhtg")) soup
      = Some article ->
    find (u "span") None article = None ->
    absent soup (u "마감일")
| absent_work_location :
    find (u "article") (Some (u "JobWorkPlace_JobWorkPlace__xPlGe")) soup = None ->
    absent soup (u "근무지역")
| absent_work_value article :
    find (u "article") (Some (u "JobWorkPlace_JobWorkPlace__xPlGe")) soup
      = Some article ->
    find (u "span") None article = None ->
    absent soup (u "근무지역")
| absent_section key :
    In key SECTION_KEYS ->
    (key = u "포지션상세" -> select_one INTRO_DIV soup = None) ->
    (forall div h3,
        In div (select SECTION_DIV soup) ->
        find (u "h3") None div = Some h3 ->
        clean (PyStr (text h3)) <> key) ->
    absent soup key.

(** The three stop conditions, for a cycle [c] run from state [p]: the
    set has reached the cap, the height measured is the one the
    previous cycle left, the void counter has come to 3. *)
Definition size_reached (max : Z) (c : cycle_end) : Prop :=
  (max <= Z.of_nat (length (hrefs (next c))))%Z.

Definition height_stable (p : session) (c : cycle_end) : Prop :=
  new_height c = Some (last_height p).

Definition three_voids (c : cycle_end) : Prop :=
  void_cnt (next c) = 3.

Definition stop_cond (max : Z) (p : session) (c : cycle_end) : Prop :=
  size_reached max c \/ height_stable p c \/ three_voids c.

(** What a cycle does to the state: the set grows by the links added,
    the void counter goes up by one on a cycle that adds none and back
    to zero otherwise, and the height measured is kept. *)
Definition cycle_ok (p : session) (c : cycle_end) : Prop :=
  length (hrefs (next c)) = length (hrefs p) + added_count c /\
  void_cnt (next c) = (if 0 <? added_count c then 0 else S (void_cnt p)) /\
  last_height (next c) =
    match new_height c with Some h => h | None => last_height p end.

(** The link of a card anchor of the page: what a scan may add. *)
Definition card_link (soup : tag) (h : str) : Prop :=
  h <> [] /\
  exists a, In a (select CARD_LINK soup) /\ attr_get (u "href") a = Some h.

(** A link of a card anchor of one of the pages. *)
Definition shown_in (pages : list markup) (h : str) : Prop :=
  exists page soup,
    In page pages /\ BeautifulSoup page = inr soup /\ card_link soup h.

(** One cycle as the browser saw it, from state [p] in world [w]: the
    page source read is [page], the set of the cycle is the scan of its
    parse, and either the set has reached the cap and nothing more is
    done, or the page is scrolled to its bottom, the pause is waited,
    and the height of the cycle is the one then measured. *)
Inductive cycle_of (max pause : Z) (p : session) (w : W) (page : markup)
    (c : cycle_end) (w' : W) : Prop :=
| cycle_full soup :
    page_source w = (inr page, w') ->
    BeautifulSoup page = inr soup ->
    hrefs (next c) = scan soup (hrefs p) ->
    (max <= Z.of_nat (length (hrefs (next c))))%Z ->
    new_height c = None ->
    cycle_of max pause p w page c w'
| cycle_scrolled soup w1 w2 w3 h :
    page_source w = (inr page, w1) ->
    BeautifulSoup page = inr soup ->
    hrefs (next c) = scan soup (hrefs p) ->
    (Z.of_nat (length (hrefs (next c))) < max)%Z ->
    scroll_to_bottom w1 = (inr tt, w2) ->
    time_sleep pause w2 = (inr tt, w3) ->
    scroll_height w3 = (inr h, w') ->
    new_height c = Some h ->
    cycle_of max pause p w page c w'.

(** Cycles run one after the other, each from the state and the world
    the one before left, with the pages they read. *)
Inductive run_of (max pause : Z)
  : session -> W -> list markup -> list cycle_end -> W -> Prop :=
| run_done p w : run_of max pause p w [] [] w
| run_step p w page c w1 pages tr w' :
    cycle_of max pause p w page c w1 ->
    run_of max pause (next c) w1 pages tr w' ->
    run_of max pause p w (page :: pages) (c :: tr) w'.

(** A discovery: the listing is loaded, the first card awaited, and the
    cycles run from the empty state. *)
Definition discovery_of (self : Crawler) (w : W) (pages : list markup)
    (tr : list cycle_end) (w' : W) : Prop :=
  exists w1 w2,
    driver_get LIST_URL w = (inr tt, w1) /\
    wait_presence 30 CARD_LINK w1 = (inr tt, w2) /\
    run_of (max_links self) (scroll_pause self) start w2 pages tr w'.

(** A cycle cut short, from state [p] in world [w], by the exception
    [e] of one of its calls: the read of the page source, its parse, the
    scroll, the pause or the measure of the height. *)
Inductive cycle_raises (max pause : Z) (p : session) (w : W) (e : exn)
    (w' : W) : Prop :=
| raises_page :
    page_source w = (inl e, w') ->
    cycle_raises max pause p w e w'
| raises_parse page :
    page_source w = (inr page, w') ->
    BeautifulSoup page = inl e ->
    cycle_raises max pause p w e w'
| raises_scroll page soup w1 :
    page_source w = (inr page, w1) ->
    BeautifulSoup page = inr soup ->
    (Z.of_nat (length (scan soup (hrefs p))) < max)%Z ->
    scroll_to_bottom w1 = (inl e, w') ->
    cycle_raises max pause p w e w'
| raises_pause page soup w1 w2 :
    page_source w = (inr page, w1) ->
    BeautifulSoup page = inr soup ->
    (Z.of_nat (length (scan soup (hrefs p))) < max)%Z ->
    scroll_to_bottom w1 = (inr tt, w2) ->
    time_sleep pause w2 = (inl e, w') ->
    cycle_raises max pause p w e w'
| raises_height page soup w1 w2 w3 :
    page_source w = (inr page, w1) ->
    BeautifulSoup page = inr soup ->
    (Z.of_nat (length (scan soup (hrefs p))) < max)%Z ->
    scroll_to_bottom w1 = (inr tt, w2) ->
    time_sleep pause w2 = (inr tt, w3) ->
    scroll_height w3 = (inl e, w') ->
    cycle_raises max pause p w e w'.

(** A run of cycles from state [p] in which a stop condition holds after
    the last cycle and after no other. *)
Fixpoint run_ok (max : Z) (p : session) (tr : list cycle_end) : Prop :=
  match tr with
  | [] => True
  | c :: rest =>
    cycle_ok p c /\ (rest = [] <-> stop_cond max p c) /\
    run_ok max (next c) rest
  end.

(** The state a run ends in. *)
Fixpoint final (p : session) (tr : list cycle_end) : session :=
  match tr with
  | [] => p
  | c :: rest => final (next c) rest
  end.

(** A discovery cut short by the exception [e]: of the load of the
    listing, of the wait for the first card, or of a cycle, after the
    cycles run until then. *)
Definition discovery_cut_short (self : Crawler) (w : W) (e : exn) (w' : W)
  : Prop :=
  driver_get LIST_URL w = (inl e, w') \/
  (exists w1,
      driver_get LIST_URL w = (inr tt, w1) /\
      wait_presence 30 CARD_LINK w1 = (inl e, w')) \/
  (exists pages tr w3,
      discovery_of self w pages tr w3 /\
      cycle_raises (max_links self) (scroll_pause self)
        (final start tr) w3 e w').

(** The number of cycles at the end of a run that added no link. *)
Fixpoint leading_voids (tr : list cycle_end) : nat :=
  match tr with
  | [] => 0
  | c :: rest => if added_count c =? 0 then S (leading_voids rest) else 0
  end.

Definition trailing_voids (tr : list cycle_end) : nat :=
  leading_voids (rev tr).

(** Cycles the loop can still run from a state. *)
Definition budget (max : Z) (st : session) : nat :=
  3 * (Z.to_nat max - length (hrefs st)) - void_cnt st.

(** The documents of the batches whose add returned. *)
Definition saved_docs (log : list (list Document * bool)) : nat :=
  list_sum
    (map (fun e : list Document * bool =>
            if snd e then length (fst e) else 0) log).

(** One id drawn with [uuid4] for each document of the batch, one call
    after the other. *)
Inductive ids_drawn : list Document -> W -> list str -> W -> Prop :=
| drawn_none w : ids_drawn [] w [] w
| drawn_next doc batch w id w1 ids w' :
    uuid4 w = (id, w1) ->
    ids_drawn batch w1 ids w' ->
    ids_drawn (doc :: batch) w (id :: ids) w'.

(** Batches handed to the vector store one after the other, from world
    [w] to world [w']: for each batch one id per document is drawn and
    [add_documents] is called with the batch and the ids; the batch is
    marked [true] when the call returned, and then the pause follows,
    and [false] when it raised. *)
Inductive handed_over : list (list Document * bool) -> W -> W -> Prop :=
| handed_none w : handed_over [] w w
| handed_saved batch ids w w1 w2 log w' :
    ids_drawn batch w ids w1 ->
    add_documents batch ids w1 = (inr tt, w2) ->
    handed_over log (sleep HALF_SECOND w2) w' ->
    handed_over ((batch, true) :: log) w w'
| handed_refused batch ids e w w1 w2 log w' :
    ids_drawn batch w ids w1 ->
    add_documents batch ids w1 = (inl e, w2) ->
    handed_over log w2 w' ->
    handed_over ((batch, false) :: log) w w'.

(** A delay [time.sleep] accepts. *)
Definition accepted (ns : Z) : Prop := (0 <= ns <= NS_MAX)%Z.

(** The session is established: the crawler is configured, the index is
    connected and the browser has started. *)
Definition established (w : W) (self : Crawler) (w' : W) : Prop :=
  exists w1 w2,
    new_crawler w = (inr self, w1) /\
    setup_pinecone_index w1 = (inr true, w2) /\
    setup_driver w2 = (inr true, w').


(** The summary of a run. *)
Definition summary_of (job_links : list str) (jobs : list dict)
    (saved_count : nat) (backup : option str) (w : W) : Summary :=
  {| total_links := length job_links;
     total_crawled := length jobs;
     total_saved := saved_count;
     backup_file := backup;
     timestamp := now_isoformat w |}.

(** The cap as the contract words it: at most [max_links] links, no two
    the same. *)
Definition within_cap (self : Crawler) (links : list str) : Prop :=
  (Z.of_nat (length links) <= max_links self)%Z /\ NoDup links.

(** The first [max_links] of the links in the order the page showed
    them. *)
Definition first_shown (self : Crawler) (shown : list str) : list str :=
  firstn (Z.to_nat (max_links self)) shown.

End Program.

(** ** A stub page tree and a scripted world

    Test doubles for the collaborators: a small element tree with the
    queries the program makes of BeautifulSoup, and a world that answers
    each call with the next reply of a script. *)

Module Stub.

Inductive node : Type :=
| Elem (name : str) (attrs : list (str * str)) (kids : forest)
| Txt (s : str)
with forest : Type :=
| Fnil
| Fcons (n : node) (f : forest).

Fixpoint forest_of (l : list node) : forest :=
  match l with
  | [] => Fnil
  | n :: l' => Fcons n (forest_of l')
  end.

(** [<name attrs>kids</name>] *)
Definition el (name : string) (attrs : list (string * str)) (kids : list node)
  : node :=
  Elem (u name) (map (fun a => (u (fst a), snd a)) attrs) (forest_of kids).

Inductive attr_test : Type :=
| Present
| Equals (v : str)
| Prefix (v : str).

(** A compound selector: [name.class[attribute test]]. *)
Record simple : Type := {
  s_name : str;
  s_class : option str;
  s_attr : option (str * attr_test)
}.

Definition by_name (n : string) : simple :=
  {| s_name := u n; s_class := None; s_attr := None |}.

Definition by_class (n c : string) : simple :=
  {| s_name := u n; s_class := Some (u c); s_attr := None |}.

Definition by_attr (n a : string) (t : attr_test) : simple :=
  {| s_name := u n; s_class := None; s_attr := Some (u a, t) |}.

Fixpoint lookup (k : str) (attrs : list (str * str)) : option str :=
  match attrs with
  | [] => None
  | (k', v) :: rest => if str_eqb k k' then Some v else lookup k rest
  end.

(** The words of a space-separated attribute value. *)
Fixpoint words (cur : str) (s : str) : list str :=
  match s with
  | [] => match cur with [] => [] | _ => [rev cur] end
  | c :: s' =>
    if is_space c
    then match cur with [] => words [] s' | _ => rev cur :: words [] s' end
    else words (c :: cur) s'
  end.

Definition has_class (c : str) (attrs : list (str * str)) : bool :=
  match lookup (u "class") attrs with
  | Some v => existsb (str_eqb c) (words [] v)
  | None => false
  end.

Definition matches (s : simple) (e : str * list (str * str)) : bool :=
  str_eqb (s_name s) (fst e) &&
  match s_class s with
  | Some c => has_class c (snd e)
  | None => true
  end &&
  match s_attr s with
  | Some (a, t) =>
    match lookup a (snd e), t with
    | Some _, Present => true
    | Some v, Equals x => str_eqb v x
    | Some v, Prefix x => starts_with x v
    | None, _ => false
    end
  | None => true
  end.

(** Ancestors (nearest first) matching the rest of a descendant chain
    (innermost first). *)
Fixpoint under (chain : list simple) (ancestors : list (str * list (str * str)))
  : bool :=
  match chain with
  | [] => true
  | s :: chain' =>
    (fix seek (l : list (str * list (str * str))) : bool :=
       match l with
       | [] => false
       | a :: l' => if matches s a then under chain' l' else seek l'
       end) ancestors
  end.

(** A complex selector is a descendant chain, innermost compound first;
    a selector group is a list of them. *)
Definition chain_matches (chain : list simple)
    (e : str * list (str * str)) (ancestors : list (str * list (str * str)))
  : bool :=
  match chain with
  | [] => false
  | s :: outer => matches s e && under outer ancestors
  end.

Fixpoint select_node (group : list (list simple))
    (ancestors : list (str * list (str * str))) (n : node) : list node :=
  match n with
  | Txt _ => []
  | Elem name attrs kids =>
    (if existsb (fun ch => chain_matches ch (name, attrs) ancestors) group
     then [n] else []) ++
    select_forest group ((name, attrs) :: ancestors) kids
  end
with select_forest (group : list (list simple))
    (ancestors : list (str * list (str * str))) (f : forest) : list node :=
  match f with
  | Fnil => []
  | Fcons n f' =>
    select_node group ancestors n ++ select_forest group ancestors f'
  end.

(** The descendants of [t] matching the group. *)
Definition select_group (group : list (list simple)) (t : node) : list node :=
  match t with
  | Txt _ => []
  | Elem name attrs kids => select_forest group [(name, attrs)] kids
  end.

(** The selectors the program uses. *)
Definition selectors : list (str * list (list simple)) :=
  [(CARD_LINK,
    [[by_attr "a" "href" (Prefix (u "/wd/"));
      by_attr "div" "data-cy" (Equals (u "job-card"))]]);
   (u "header h1, header h2",
    [[by_name "h1"; by_name "header"]; [by_name "h2"; by_name "header"]]);
   (u "header a[data-company-name]",
    [[by_attr "a" "data-company-name" Present; by_name "header"]]);
   (u "div.JobDescription_JobDescription__paragraph__wrapper__WPrKC",
    [[by_class "div" "JobDescription_JobDescription__paragraph__wrapper__WPrKC"]]);
   (u "div.JobDescription_JobDescription__paragraph__87w8I",
    [[by_class "div" "JobDescription_JobDescription__paragraph__87w8I"]]);
   (u "span.wds-h4ga6o span",
    [[by_name "span"; by_class "span" "wds-h4ga6o"]])].

Fixpoint group_of (css : str) (table : list (str * list (list simple)))
  : list (list simple) :=
  match table with
  | [] => []
  | (k, g) :: rest => if str_eqb css k then g else group_of css rest
  end.

Fixpoint texts_node (n : node) : list str :=
  match n with
  | Txt s => [s]
  | Elem _ _ kids => texts_forest kids
  end
with texts_forest (f : forest) : list str :=
  match f with
  | Fnil => []
  | Fcons n f' => texts_node n ++ texts_forest f'
  end.

(** Page markup: markup the parser builds a tree from, or text it
    rejects. *)
Inductive html : Type :=
| Html (tree : node)
| Garbled (text : str).

Coercion Html : node >-> html.

#[export] Instance soup : Soup html node := {
  BeautifulSoup := fun page =>
    match page with
    | Html tree => inr tree
    | Garbled _ => inl (Exception "ParserRejectedMarkup")
    end;
  select := fun css t => select_group (group_of css selectors) t;
  find := fun name cls t =>
    hd_error
      (select_group [[{| s_name := name; s_class := cls; s_attr := None |}]] t);
  get_text := fun sep strip_each t =>
    if strip_each
    then join sep (filter truthy (map strip (texts_node t)))
    else join sep (texts_node t);
  attr_get := fun a t =>
    match t with
    | Elem _ attrs _ => lookup a attrs
    | Txt _ => None
    end
}.

(** One reply of the scripted world. *)
Inductive reply : Type :=
| Done
| Raises (what : string)
| Shows (page : html)
| Measures (h : Z)
| Configures (c : Crawler).

Definition world := list reply.

(** Take the next reply; an exhausted script raises. *)
Definition answer {A} (read : reply -> option A) : M world A :=
  fun w =>
    match w with
    | [] => (inl (Exception "script exhausted"), [])
    | Raises what :: w' => (inl (Exception what), w')
    | r :: w' =>
      match read r with
      | Some a => (inr a, w')
      | None => (inl (Exception "unexpected call"), w')
      end
    end.

Definition done : M world unit :=
  answer (fun r => match r with Done => Some tt | _ => None end).

#[export] Instance scripted : World world html unit := {
  driver_get := fun _ => done;
  wait_presence := fun _ _ => done;
  page_source :=
    answer (fun r => match r with Shows p => Some p | _ => None end);
  find_element := fun _ => done;
  click := fun _ => done;
  scroll_to_bottom := done;
  scroll_height :=
    answer (fun r => match r with Measures h => Some h | _ => None end);
  driver_quit := done;
  sleep := fun _ w => w;
  now_isoformat := fun _ => u "2024-01-01T00:00:00";
  now_stamp := fun _ => u "20240101_000000";
  new_crawler :=
    answer (fun r => match r with Configures c => Some c | _ => None end);
  connect_index := done;
  start_chrome := done;
  uuid4 := fun w => (u "00000000-0000-4000-8000-000000000000", w);
  add_documents := fun _ _ => done;
  write_json := fun _ _ => done;
  append_summary := fun _ => done
}.

(** Sets that list their members in insertion order, and in the reverse
    of it. *)
#[export] Instance insertion_order : SetOrder := {
  set_iter := fun s => s;
  set_iter_perm := fun s _ => Permutation_refl s
}.

Definition reverse_order : SetOrder := {|
  set_iter := fun s => rev s;
  set_iter_perm := fun s _ => Permutation_sym (Permutation_rev s)
|}.

Local Open Scope string_scope.

(** A posting card of the listing page. *)
Definition card (href : string) : node :=
  el "div" [("data-cy", u "job-card")]
    [el "a" [("href", u href)] [Txt (u "posting")]].

Definition listing (hrefs : list string) : node :=
  el "[document]" [] [el "body" [] (map card hrefs)].

Definition twelve : list string :=
  ["/wd/1"; "/wd/2"; "/wd/3"; "/wd/4"; "/wd/5"; "/wd/6";
   "/wd/7"; "/wd/8"; "/wd/9"; "/wd/10"; "/wd/11"; "/wd/12"].

(** A posting page with a title and a company in its header. *)
Definition posting (title company : string) : node :=
  el "[document]" []
    [el "header" []
       [el "h1" [] [Txt (u title)];
        el "a" [("data-company-name", u company)] [Txt (u company)]]].

(** A page with nothing on it. *)
Definition blank : node := el "[document]" [] [].

Definition crawler (max : Z) : Crawler :=
  {| max_links := max; scroll_pause := 1200000000; crawl_delay := 2 |}.

(** *** Scripts

    Each script lists the replies in the order the program makes its
    calls. *)

(** A listing of twelve cards, all on the first page. *)
Definition twelve_cards : world :=
  [Done;                       (* driver.get(LIST_URL) *)
   Done;                       (* wait for the first card *)
   Shows (listing twelve)].    (* page_source *)

(** A listing whose second page load fails. *)
Definition failing_listing : world :=
  [Done; Done;                              (* get, wait *)
   Shows (listing ["/wd/1"]);               (* cycle 1: page_source *)
   Done; Measures 1000;                     (* cycle 1: scroll, height *)
   Raises "WebDriverException"].            (* cycle 2: page_source *)


(** A session that finds one posting whose page stays blank. *)
Definition blank_posting : world :=
  [Configures (crawler 1); Done; Done;      (* crawler, index, browser *)
   Done; Done; Shows (listing ["/wd/1"]);   (* get, wait, page_source *)
   Done; Done; Done; Done; Shows blank;     (* attempt 1: get, wait, find,
                                               click, page_source *)
   Done; Done; Done; Done; Shows blank;     (* attempt 2 *)
   Done].                                   (* driver.quit() *)

(** A session that finds one posting, fetches it, and whose only batch
    is refused by the vector store. *)
Definition refused_batch : world :=
  [Configures (crawler 1); Done; Done;      (* crawler, index, browser *)
   Done; Done; Shows (listing ["/wd/1"]);   (* get, wait, page_source *)
   Done; Done;                              (* attempt 1: get, wait *)
   Raises "NoSuchElementException";         (* no button to click *)
   Shows (posting "Dev" "ACME");            (* page_source *)
   Done;                                    (* backup written *)
   Raises "PineconeException";              (* add_documents *)
   Done;                                    (* summary appended *)
   Done].                                   (* driver.quit() *)

Definition five : list string := ["/wd/1"; "/wd/2"; "/wd/3"; "/wd/4"; "/wd/5"].

(** A listing of five cards that re-renders taller and taller without
    ever showing a new card. *)
Definition growing_without_cards : world :=
  [Done; Done;
   Shows (listing five); Done; Measures 1000;
   Shows (listing five); Done; Measures 2000;
   Shows (listing five); Done; Measures 3000;
   Shows (listing five); Done; Measures 4000].

(** A listing of five cards that stops growing. *)
Definition settled : world :=
  [Done; Done;
   Shows (listing five); Done; Measures 1000;
   Shows (listing five); Done; Measures 1000].

(** What a cycle reports: links added, height measured, break, void
    counter. *)
Definition report (c : cycle_end) : nat * option Z * bool * nat :=
  (added_count c, new_height c, broke c, void_cnt (next c)).

End Stub.

(** ** Further properties of the program *)

Section Further.

Context {markup tag element W : Type}.
Context {soup_ops : Soup markup tag}.
Context {world_ops : World W markup element}.

(** The heading of a section block normalises to [key]. *)
Definition heading_is (key : str) (div : tag) : bool :=
  match find (u "h3") None div with
  | Some h3 => str_eqb (clean (PyStr (text h3))) key
  | None => false
  end.

(** What the record holds under a section key: the body of the last
    block headed by the key; without such a block, the body of the intro
    container for the position detail, and the empty string otherwise. *)
Definition section_value (key : str) (soup : tag) : str :=
  match List.find (heading_is key) (rev (select SECTION_DIV soup)) with
  | Some div => extract_block div
  | None =>
    if str_eqb key (u "포지션상세") then
      match select_one INTRO_DIV soup with
      | Some intro_div => extract_block intro_div
      | None => []
      end
    else []
  end.

(** Every value is a normalised [str]. *)
Definition clean_valued (d : dict) : Prop :=
  Forall (fun kv => exists s, snd kv = PyStr s /\ single_junk_free s) d.

(** The keys [crawl_job_details] adds to a record. *)
Definition CRAWL_KEYS : list str :=
  [u "source"; u "crawled_at"; u "link_index"].

(** The keys of the metadata of a document. *)
Definition METADATA_KEYS : list str :=
  [u "url"; u "title"; u "company"; u "마감일"; u "근무지역"; u "신입경력";
   u "source_file"; u "original_url"].

(** The records held once the link at index [i] has been fetched: the
    record [parse_detail] returned, if it returned one, is stored with
    the crawl keys. *)
Definition with_fetched (jobs : list dict) (i : nat) (stamp : str)
    (job_detail : option dict) : list dict :=
  match job_detail with
  | Some ((_ :: _) as d) =>
    jobs ++
    [dict_update d
       [(u "source", PyStr (u "wanted"));
        (u "crawled_at", PyStr stamp);
        (u "link_index", PyInt (Z.of_nat i + 1))]]
  | _ => jobs
  end.

(** [job["link_index"]] *)
Definition position (job : dict) : Z :=
  match dict_get (u "link_index") job with
  | Some (PyInt z) => z
  | _ => 0
  end.

(** The record was fetched from the link at index [i] of [links]: it
    has the fields of a parsed page, then the crawl keys, with the
    1-based position of the link and the address built from it. *)
Definition fetched_from (links : list str) (i : nat) (job : dict) : Prop :=
  i < length links /\
  dict_keys job = RECORD_KEYS ++ CRAWL_KEYS /\
  dict_get (u "link_index") job = Some (PyInt (Z.of_nat i + 1)) /\
  dict_get (u "url") job = Some (PyStr (BASE_URL ++ nth i links [])) /\
  dict_get (u "source") job = Some (PyStr (u "wanted")) /\
  usable job.

(** The records collected once the links [seen] have been fetched: each
    comes from one of those links, in their order, at most one per
    link. *)
Definition collected (links seen : list str) (jobs : list dict) : Prop :=
  Forall (fun job => exists i, i < length seen /\ fetched_from links i job)
         jobs /\
  StronglySorted Z.lt (map position jobs) /\
  length jobs <= length seen.

(** The metadata of a document made from [job]: the head fields of the
    record, and nothing under the three keys the crawler never fills. *)
Definition document_for (job : dict) (doc : Document) : Prop :=
  dict_keys (metadata doc) = METADATA_KEYS /\
  dict_get (u "url") (metadata doc) = dict_get (u "url") job /\
  dict_get (u "title") (metadata doc) = dict_get (u "title") job /\
  dict_get (u "company") (metadata doc) = dict_get (u "company") job /\
  dict_get (u "마감일") (metadata doc) = dict_get (u "마감일") job /\
  dict_get (u "근무지역") (metadata doc) = dict_get (u "근무지역") job /\
  dict_get (u "신입경력") (metadata doc) = Some (PyStr []) /\
  dict_get (u "source_file") (metadata doc) = Some (PyStr []) /\
  dict_get (u "original_url") (metadata doc) = Some (PyStr []).

End Further.

(** Pages and scripts for the further properties. *)
Module Pages.

Import Stub.

Local Open Scope string_scope.

(** A section block: a heading and a body. *)
Definition block (heading body : string) : node :=
  el "div" [("class", u "JobDescription_JobDescription__paragraph__87w8I")]
    [el "h3" [] [Txt (u heading)];
     el "span" [("class", u "wds-h4ga6o")] [el "span" [] [Txt (u body)]]].

(** A posting with two blocks under the same heading and one under a
    heading that is no section key. *)
Definition repeated_heading : node :=
  el "[document]" []
    [el "header" [] [el "h1" [] [Txt (u "Dev")]];
     block "주요업무" "first";
     block "기타" "ignored";
     block "주요업무" "second"].

(** Markup the parser rejects. *)
Definition garbled : html := Garbled (u "<![ab]]>").

(** A listing that shows six cards first and all twelve after a
    scroll. *)
Definition loading_listing : world :=
  [Done; Done;                                   (* get, wait *)
   Shows (listing (firstn 6 twelve));            (* cycle 1: page_source *)
   Done; Measures 1000;                          (* cycle 1: scroll, height *)
   Shows (listing twelve)].                      (* cycle 2: page_source *)

(** A crawler configured with [CRAWL_DELAY=-1]. *)
Definition hasty : Crawler :=
  {| max_links := 1; scroll_pause := 1200000000; crawl_delay := -1 |}.

(** A session of that crawler which finds one posting and fetches it. *)
Definition refused_delay : world :=
  [Configures hasty; Done; Done;            (* crawler, index, browser *)
   Done; Done; Shows (listing ["/wd/1"]);   (* get, wait, page_source *)
   Done; Done;                              (* attempt 1: get, wait *)
   Raises "NoSuchElementException";         (* no button to click *)
   Shows (posting "Dev" "ACME");            (* page_source *)
   Done].                                   (* driver.quit() *)

(** A session that fetches one posting and saves it, and whose summary
    log cannot be written. *)
Definition failed_append : world :=
  [Configures (crawler 1); Done; Done;      (* crawler, index, browser *)
   Done; Done; Shows (listing ["/wd/1"]);   (* get, wait, page_source *)
   Done; Done;                              (* attempt 1: get, wait *)
   Raises "NoSuchElementException";         (* no button to click *)
   Shows (posting "Dev" "ACME");            (* page_source *)
   Done;                                    (* backup written *)
   Done;                                    (* add_documents *)
   Raises "PermissionError";                (* summary append *)
   Done].                                   (* driver.quit() *)

(** A vector store that refuses the first of two batches. *)
Definition first_batch_refused : world :=
  [Raises "PineconeException";              (* add_documents, batch 1 *)
   Done].                                   (* add_documents, batch 2 *)

Definition doc (n : nat) : Document :=
  {| page_content := u "posting"; metadata := [(u "title", PyInt (Z.of_nat n))] |}.

End Pages.

(** * Verification *)

(** ** Strings and normalisation *)

Lemma str_eqb_eq (a b : str) : str_eqb a b = true <-> a = b.
Proof.
  revert b. induction a as [|x a' IH]; intros [|y b']; simpl;
    try (split; congruence).
  rewrite andb_true_iff, N.eqb_eq, IH. split.
  - intros [-> ->]. reflexivity.
  - intros H. inversion H. auto.
Qed.

Lemma str_eqb_refl (a : str) : str_eqb a a = true.
Proof. now apply str_eqb_eq. Qed.

Lemma str_eqb_neq (a b : str) : str_eqb a b = false <-> a <> b.
Proof.
  rewrite <- str_eqb_eq. destruct (str_eqb a b); split; congruence.
Qed.

Example u_ascii : u "/wd/" = [47; 119; 100; 47]%N.
Proof. reflexivity. Qed.

Example u_bullet : u "•" = [BULLET] /\ u "■" = [BLACK_SQUARE].
Proof. split; reflexivity. Qed.

Example replace_no_overlap :
  replace (u "aa") (u "b") (u "aaa") = u "ba".
Proof. reflexivity. Qed.

Example replace_triple_space :
  replace DOUBLE_SPACE [SPACE] (u "a   b") = u "a  b".
Proof. reflexivity. Qed.

Example strip_ends :
  strip (u "  a b ") = u "a b".
Proof. reflexivity. Qed.

Example clean_example :
  clean (PyStr (u "  • Python■ 3 ")) = u "Python 3".
Proof. reflexivity. Qed.

Example clean_triple_space :
  clean (PyStr (u "a   b")) = u "a  b".
Proof. reflexivity. Qed.

Example clean_zwsp_joins_backslash_n :
  clean (PyStr [BACKSLASH; ZWSP; LETTER_N]) = BACKSLASH_N.
Proof. reflexivity. Qed.

Example clean_nbsp_after_space :
  clean (PyStr [97; SPACE; NBSP; 98]%N) = [97; SPACE; SPACE; 98]%N.
Proof. reflexivity. Qed.

Lemma replace_from_in (old new : str) (x : N) (s : str) :
  forall skip, In x (replace_from skip old new s) -> In x s \/ In x new.
Proof.
  induction s as [|c s' IH]; intros skip H; simpl in H.
  - contradiction.
  - destruct skip as [|k].
    + destruct (starts_with old (c :: s')).
      * apply in_app_or in H. destruct H as [H|H]; [now right|].
        apply IH in H. destruct H; [left; now right | now right].
      * destruct H as [H|H]; [left; now left|].
        apply IH in H. destruct H; [left; now right | now right].
    + apply IH in H. destruct H; [left; now right | now right].
Qed.

Lemma replace_in (old new : str) (x : N) (s : str) :
  In x (replace old new s) -> In x s \/ In x new.
Proof.
  unfold replace. destruct old as [|o old'].
  - intros H. apply in_app_or in H. destruct H as [H|H]; [now right|].
    apply in_flat_map in H. destruct H as [c [Hc [H|H]]]; subst; auto.
  - apply replace_from_in.
Qed.

Lemma replace_keeps_absent (old new : str) (x : N) (s : str) :
  ~ In x s -> ~ In x new -> ~ In x (replace old new s).
Proof. intros Hs Hn H. apply replace_in in H. tauto. Qed.

Lemma replace_char_absent (c : N) (new s : str) :
  ~ In c new -> ~ In c (replace [c] new s).
Proof.
  intros Hn. unfold replace.
  induction s as [|a s' IH]; simpl; [tauto|].
  rewrite andb_true_r. destruct (N.eqb_spec c a) as [E|E].
  - intros H. apply in_app_or in H. tauto.
  - intros [H|H]; [congruence | tauto].
Qed.

Lemma lstrip_suffix (s : str) : exists p, s = p ++ lstrip s.
Proof.
  induction s as [|c s' [p Hp]]; simpl.
  - now exists [].
  - destruct (is_space c).
    + exists (c :: p). simpl. now f_equal.
    + now exists [].
Qed.

Lemma lstrip_head (s : str) (c : N) (r : str) :
  lstrip s = c :: r -> is_space c = false.
Proof.
  induction s as [|a s' IH]; simpl; [discriminate|].
  destruct (is_space a) eqn:E; [assumption|].
  intros H. now inversion H; subst.
Qed.

Lemma lstrip_in (x : N) (s : str) : In x (lstrip s) -> In x s.
Proof.
  destruct (lstrip_suffix s) as [p Hp]. intros H.
  rewrite Hp. apply in_or_app. now right.
Qed.

Lemma strip_in (x : N) (s : str) : In x (strip s) -> In x s.
Proof.
  unfold strip, rstrip. intros H.
  apply in_rev in H. apply lstrip_in in H. apply in_rev in H.
  now apply lstrip_in.
Qed.

Lemma strip_trimmed (s : str) : trimmed (strip s).
Proof.
  unfold strip, rstrip.
  set (t := lstrip s).
  destruct (lstrip_suffix (rev t)) as [p Hp].
  destruct (lstrip (rev t)) as [|a r] eqn:Er; simpl; [exact I|].
  assert (Ha : is_space a = false) by (eapply lstrip_head; eassumption).
  assert (Ht : t = (rev r ++ [a]) ++ rev p).
  { rewrite <- (rev_involutive t), Hp, rev_app_distr. reflexivity. }
  destruct (rev r ++ [a]) as [|c q] eqn:Eq.
  - destruct (rev r); discriminate.
  - split.
    + apply (@lstrip_head s c (q ++ rev p)). exact Ht.
    + rewrite <- Eq. now rewrite last_last.
Qed.

Example slice_to_pos : slice_to 2 [1; 2; 3] = [1; 2].
Proof. reflexivity. Qed.

Example slice_to_neg : slice_to (-1) [1; 2; 3] = [1; 2].
Proof. reflexivity. Qed.

(** Each single-character token is gone after its own replacement and is
    brought back by no later one. *)
Lemma not_in_space (c : N) : c <> SPACE -> ~ In c [SPACE].
Proof. intros Hc [H|[]]. congruence. Qed.

(** A later replacement brings no junk character back. *)
Ltac later_replace :=
  apply replace_keeps_absent;
  [| first [apply in_nil | apply not_in_space; discriminate]].

(** C7 (as amended): for every string input, the output of [clean] is
    trimmed of surrounding whitespace and contains no bullet marker, no
    zero-width space, no non-breaking space and no newline. *)
Theorem clean_output_single_junk_free (s : str) :
  single_junk_free (clean (PyStr s)).
Proof.
  unfold single_junk_free, clean, clean_str. split; [apply strip_trimmed|].
  repeat split; intros H; apply strip_in in H; revert H.
  - (* BULLET: the first replacement *)
    do 6 later_replace. apply replace_char_absent, in_nil.
  - (* BLACK_SQUARE: the second *)
    do 5 later_replace. apply replace_char_absent, in_nil.
  - (* ZWSP: the sixth *)
    do 1 later_replace. apply replace_char_absent, in_nil.
  - (* NBSP: the last *)
    apply replace_char_absent, not_in_space. discriminate.
  - (* NEWLINE: the third *)
    do 4 later_replace. apply replace_char_absent, not_in_space. discriminate.
Qed.

(** C7 (as stated) fails: one pass over three spaces leaves two. *)
Lemma clean_leaves_doubled_space :
  ~ junk_free (clean (PyStr (u "a   b"))).
Proof.
  intros (_ & _ & _ & _ & _ & _ & _ & H). vm_compute in H. discriminate.
Qed.

(** It also fails on the backslash-n token, which the later removal of a
    zero-width space can put together. *)
Example clean_leaves_backslash_n :
  ~ junk_free (clean (PyStr [BACKSLASH; ZWSP; LETTER_N])).
Proof.
  intros (_ & _ & _ & _ & _ & _ & H & _). vm_compute in H. discriminate.
Qed.

(** C10: for every input that is not a string, [clean] returns the empty
    string. *)
Theorem clean_non_string (x : pyobj) :
  isinstance_str x = false -> clean x = [].
Proof. destruct x; simpl; intros H; [reflexivity .. | discriminate]. Qed.

Lemma clean_non_string_witness :
  isinstance_str PyNone = false /\ clean PyNone = [].
Proof. split; [reflexivity | apply (clean_non_string PyNone); reflexivity]. Defined.

(** ** Dictionaries *)

Lemma dict_get_app (k : str) (d e : dict) :
  dict_get k (d ++ e) =
  match dict_get k d with Some v => Some v | None => dict_get k e end.
Proof.
  induction d as [|[k' v'] d IH]; simpl; [reflexivity|].
  destruct (str_eqb k k'); [reflexivity | exact IH].
Qed.

Lemma dict_get_none_keys (k : str) (d : dict) :
  dict_get k d = None <-> ~ In k (dict_keys d).
Proof.
  induction d as [|[k' v'] d IH]; simpl; [tauto|].
  destruct (str_eqb k k') eqn:E.
  - apply str_eqb_eq in E. split; [discriminate | intros H; exfalso; auto].
  - apply str_eqb_neq in E. rewrite IH. split; [intros H [F|F]; auto | tauto].
Qed.

Lemma dict_set_new (k : str) (v : pyobj) (d : dict) :
  dict_get k d = None -> dict_set k v d = d ++ [(k, v)].
Proof.
  induction d as [|[k' v'] d IH]; simpl; [reflexivity|].
  destruct (str_eqb k k'); [discriminate|]. intros H. now rewrite IH.
Qed.

Lemma dict_set_keys (k : str) (v : pyobj) (d : dict) :
  dict_has k d = true -> dict_keys (dict_set k v d) = dict_keys d.
Proof.
  unfold dict_has. induction d as [|[k' v'] d IH]; simpl; [discriminate|].
  destruct (str_eqb k k'); simpl; [reflexivity|].
  intros H. now rewrite IH.
Qed.

Lemma dict_get_set_same (k : str) (v : pyobj) (d : dict) :
  dict_get k (dict_set k v d) = Some v.
Proof.
  induction d as [|[k' v'] d IH]; simpl.
  - now rewrite str_eqb_refl.
  - destruct (str_eqb k k') eqn:E; simpl; rewrite E; [reflexivity | exact IH].
Qed.

Lemma dict_get_set_other (k k' : str) (v : pyobj) (d : dict) :
  k <> k' -> dict_get k (dict_set k' v d) = dict_get k d.
Proof.
  intros Hk. induction d as [|[k2 v2] d IH]; simpl.
  - apply str_eqb_neq in Hk. now rewrite Hk.
  - destruct (str_eqb k' k2) eqn:E; simpl.
    + apply str_eqb_eq in E. subst k2.
      apply str_eqb_neq in Hk. now rewrite Hk.
    + now rewrite IH.
Qed.

(** Updating with entries under fresh, distinct keys appends them. *)
Lemma dict_update_fresh (e d : dict) :
  NoDup (dict_keys e) ->
  (forall k, In k (dict_keys e) -> dict_get k d = None) ->
  dict_update d e = d ++ e.
Proof.
  unfold dict_update. revert d.
  induction e as [|[k v] e IH]; intros d Hnd Hfresh; simpl.
  - now rewrite app_nil_r.
  - inversion Hnd as [|? ? Hk Hnd']; subst.
    rewrite dict_set_new by (apply Hfresh; now left).
    rewrite IH; [now rewrite <- app_assoc | assumption |].
    intros k' Hk'. rewrite dict_get_app, Hfresh by (now right).
    simpl. destruct (str_eqb k' k) eqn:E; [|reflexivity].
    apply str_eqb_eq in E. subst. contradiction.
Qed.

Lemma dict_update_get_other (k : str) (e d : dict) :
  ~ In k (dict_keys e) -> dict_get k (dict_update d e) = dict_get k d.
Proof.
  unfold dict_update. revert d.
  induction e as [|[k' v] e IH]; intros d Hk; simpl; [reflexivity|].
  rewrite IH by (intros H; apply Hk; now right).
  apply dict_get_set_other. intros ->. apply Hk. now left.
Qed.

Lemma section_keys_distinct : NoDup SECTION_KEYS.
Proof.
  vm_compute. repeat constructor; simpl; intuition discriminate.
Qed.

Lemma record_keys_count : length RECORD_KEYS = 11.
Proof. reflexivity. Qed.

(** ** Field extraction *)

Section Extraction.

Context {markup tag : Type} {soup_ops : Soup markup tag}.

Lemma dict_set_text_valued (k s : str) (d : dict) :
  text_valued d -> text_valued (dict_set k (PyStr s) d).
Proof.
  unfold text_valued. induction 1 as [|[k' v'] d Hv Hd IH]; simpl.
  - repeat constructor. now exists s.
  - destruct (str_eqb k k'); constructor; simpl; eauto.
Qed.

Lemma text_valued_get (k : str) (d : dict) :
  text_valued d -> In k (dict_keys d) ->
  exists s, dict_get k d = Some (PyStr s).
Proof.
  unfold text_valued. induction 1 as [|[k' v'] d [s Hs] Hd IH]; simpl.
  - contradiction.
  - simpl in Hs. subst v'. destruct (str_eqb k k') eqn:E; [now exists s|].
    apply str_eqb_neq in E. intros [H|H]; [congruence | auto].
Qed.

Lemma section_step_keys (d : dict) (div : tag) :
  dict_keys (section_step d div) = dict_keys d.
Proof.
  unfold section_step. destruct (find (u "h3") None div); [|reflexivity].
  destruct (dict_has _ d) eqn:E; [now apply dict_set_keys | reflexivity].
Qed.

Lemma section_step_text_valued (d : dict) (div : tag) :
  text_valued d -> text_valued (section_step d div).
Proof.
  intros H. unfold section_step. destruct (find (u "h3") None div); [|exact H].
  destruct (dict_has _ d); [now apply dict_set_text_valued | exact H].
Qed.

Lemma fold_section_step (P : dict -> Prop) (divs : list tag) :
  (forall d div, P d -> P (section_step d div)) ->
  forall d, P d -> P (fold_left section_step divs d).
Proof.
  intros step. induction divs as [|div divs IH]; simpl; auto.
Qed.

Lemma empty_detail_get (k : str) :
  In k SECTION_KEYS -> dict_get k empty_detail = Some (PyStr []).
Proof.
  intros H. repeat (destruct H as [<-|H]; [reflexivity|]). contradiction.
Qed.

Lemma detail_keys (soup : tag) : dict_keys (detail_of soup) = SECTION_KEYS.
Proof.
  unfold detail_of.
  apply (fold_section_step (fun d => dict_keys d = SECTION_KEYS)).
  - intros d div H. now rewrite section_step_keys.
  - destruct (select_one INTRO_DIV soup); [|reflexivity].
    now rewrite dict_set_keys.
Qed.

Lemma detail_text_valued (soup : tag) : text_valued (detail_of soup).
Proof.
  assert (E : text_valued empty_detail).
  { unfold empty_detail, text_valued. apply Forall_forall.
    intros kv H. apply in_map_iff in H. destruct H as [k [<- _]].
    now exists []. }
  unfold detail_of. apply fold_section_step.
  - intros d div. apply section_step_text_valued.
  - destruct (select_one INTRO_DIV soup); [|exact E].
    now apply dict_set_text_valued.
Qed.

(** A block headed by another key leaves the entry of [key] alone. *)
Lemma fold_section_step_get (key : str) (divs : list tag) :
  (forall div h3, In div divs -> find (u "h3") None div = Some h3 ->
                  clean (PyStr (text h3)) <> key) ->
  forall d, dict_get key (fold_left section_step divs d) = dict_get key d.
Proof.
  induction divs as [|div divs IH]; intros Hk d; simpl; [reflexivity|].
  rewrite IH by (intros ? ? ?; apply Hk; now right).
  unfold section_step. destruct (find (u "h3") None div) as [h3|] eqn:E; [|reflexivity].
  destruct (dict_has _ d); [|reflexivity].
  apply dict_get_set_other. intros Heq.
  apply (Hk div h3); [now left | assumption | now symmetry].
Qed.

Lemma section_key_not_head (k : str) :
  In k SECTION_KEYS -> ~ In k head_keys.
Proof.
  intros H H'.
  repeat (destruct H as [<-|H];
          [vm_compute in H'; intuition discriminate|]).
  contradiction.
Qed.

(** The record is the five head entries followed by the six sections. *)
Lemma result_of_app (url : str) (soup : tag) :
  result_of url soup =
  [(u "url", PyStr url); (u "title", PyStr (title_of soup));
   (u "company", PyStr (company_of soup));
   (u "마감일", PyStr (due_date_of soup));
   (u "근무지역", PyStr (work_location_of soup))] ++ detail_of soup.
Proof.
  unfold result_of. apply dict_update_fresh.
  - rewrite detail_keys. apply section_keys_distinct.
  - intros k Hk. rewrite detail_keys in Hk.
    apply dict_get_none_keys. now apply section_key_not_head.
Qed.

Lemma result_of_keys (url : str) (soup : tag) :
  dict_keys (result_of url soup) = RECORD_KEYS.
Proof.
  rewrite result_of_app. unfold dict_keys. rewrite map_app.
  fold (dict_keys (detail_of soup)). now rewrite detail_keys.
Qed.

Lemma result_of_text_valued (url : str) (soup : tag) :
  text_valued (result_of url soup).
Proof.
  rewrite result_of_app. apply Forall_app. split.
  - repeat constructor; simpl; eauto.
  - apply detail_text_valued.
Qed.

Lemma result_of_title (url : str) (soup : tag) :
  dict_get (u "title") (result_of url soup) = Some (PyStr (title_of soup)).
Proof. rewrite result_of_app. reflexivity. Qed.

Lemma result_of_company (url : str) (soup : tag) :
  dict_get (u "company") (result_of url soup) = Some (PyStr (company_of soup)).
Proof. rewrite result_of_app. reflexivity. Qed.

Lemma result_of_due_date (url : str) (soup : tag) :
  dict_get (u "마감일") (result_of url soup) = Some (PyStr (due_date_of soup)).
Proof. rewrite result_of_app. reflexivity. Qed.

Lemma result_of_work_location (url : str) (soup : tag) :
  dict_get (u "근무지역") (result_of url soup)
  = Some (PyStr (work_location_of soup)).
Proof. rewrite result_of_app. reflexivity. Qed.

Lemma result_of_section (url key : str) (soup : tag) :
  In key SECTION_KEYS ->
  dict_get key (result_of url soup) = dict_get key (detail_of soup).
Proof.
  intros H. rewrite result_of_app, dict_get_app.
  apply section_key_not_head in H.
  set (head := [_; _; _; _; _]).
  assert (E : dict_get key head = None) by (now apply dict_get_none_keys).
  now rewrite E.
Qed.

Lemma result_of_absent (url : str) (soup : tag) (k : str) :
  absent soup k -> dict_get k (result_of url soup) = Some (PyStr []).
Proof.
  intros [H|H|H|a Ha H|a Ha H|H|a Ha H|key Hkey Hintro Hdivs].
  - rewrite result_of_title. unfold title_of. now rewrite H.
  - rewrite result_of_company. unfold company_of. now rewrite H.
  - rewrite result_of_due_date. unfold due_date_of. now rewrite H.
  - rewrite result_of_due_date. unfold due_date_of. now rewrite Ha, H.
  - rewrite result_of_due_date. unfold due_date_of. rewrite Ha, H.
    destruct (find (u "h2") None a); [|reflexivity].
    now destruct (occurs _ _).
  - rewrite result_of_work_location. unfold work_location_of. now rewrite H.
  - rewrite result_of_work_location. unfold work_location_of.
    now rewrite Ha, H.
  - rewrite result_of_section by assumption. unfold detail_of.
    rewrite fold_section_step_get by assumption.
    destruct (select_one INTRO_DIV soup) as [intro|] eqn:E.
    + rewrite dict_get_set_other; [now apply empty_detail_get|].
      intros ->. now discriminate Hintro.
    + now apply empty_detail_get.
Qed.

(** C6 (as amended): for any markup the parser accepts, field extraction
    does not raise and yields a record with exactly the 11 named fields,
    each holding a string, and the empty string under every field whose
    element is absent from the page; on markup the parser rejects, the
    extraction raises the exception of the parser and builds no
    record. *)
Theorem extract_record_full_shaped (url : str) (page : markup) :
  match BeautifulSoup page with
  | inr soup =>
    exists r,
      extract_record url page = inr r /\
      dict_keys r = RECORD_KEYS /\
      length (dict_keys r) = 11 /\
      (forall k, In k RECORD_KEYS -> exists s, dict_get k r = Some (PyStr s)) /\
      (forall k, absent soup k -> dict_get k r = Some (PyStr []))
  | inl e => extract_record url page = inl e
  end.
Proof.
  unfold extract_record.
  destruct (BeautifulSoup page) as [e|soup]; [reflexivity|].
  exists (result_of url soup). split; [reflexivity|].
  split; [apply result_of_keys|].
  split; [now rewrite result_of_keys|]. split.
  - intros k Hk. apply text_valued_get; [apply result_of_text_valued|].
    now rewrite result_of_keys.
  - intros k. apply result_of_absent.
Qed.

End Extraction.

(** ** Detail fetching *)

Section Fetching.

Context {markup tag element W : Type}.
Context {soup_ops : Soup markup tag}.
Context {world_ops : World W markup element}.

Lemma usable_result_of (url : str) (soup : tag) :
  truthy (title_of soup) || truthy (company_of soup) = true ->
  usable (result_of url soup).
Proof.
  intros H. exists (title_of soup), (company_of soup).
  rewrite result_of_title, result_of_company. repeat split.
  apply orb_true_iff in H. destruct H as [H|H]; [left | right];
    intros E; rewrite E in H; discriminate.
Qed.

(** An attempt returns a record only if it has a title or a company,
    and then one with the 11 fields. *)
Lemma attempt_returns (url : str) (w w' : W) (r : dict) :
  attempt url w = (inr (Some r), w') ->
  usable r /\ dict_keys r = RECORD_KEYS.
Proof.
  unfold attempt, bind, ret, lift. intros H.
  destruct (driver_get url w) as [[e|[]] w1]; [discriminate|].
  destruct (wait_presence 10 (u "h1, h2") w1) as [[e|[]] w2]; [discriminate|].
  destruct (try_except _ _ w2) as [[e|[]] w3]; [discriminate|].
  destruct (page_source w3) as [[e|page] w4]; [discriminate|].
  destruct (BeautifulSoup page) as [e|soup]; [discriminate|].
  destruct (truthy _ || truthy _) eqn:T; inversion H; subst.
  split; [now apply usable_result_of | apply result_of_keys].
Qed.

(** One turn of the retry loop: a record is returned at once; a blank
    page, or an exception after its pause, leaves the rest of the
    attempts to run. *)
Lemma parse_attempts_next (n : nat) (url : str) (w : W) :
  parse_attempts (S n) url w =
  match attempt url w with
  | (inr (Some r), w') => (inr (Some r), w')
  | (inr None, w') => parse_attempts n url w'
  | (inl _, w') => parse_attempts n url (sleep HALF_SECOND w')
  end.
Proof.
  cbn [parse_attempts]. unfold bind, try_except, ret.
  destruct (attempt url w) as [[e|[r|]] w']; reflexivity.
Qed.

Lemma parse_attempts_result (n : nat) (url : str) (w : W) :
  match fst (parse_attempts n url w) with
  | inr None => True
  | inr (Some r) => usable r /\ dict_keys r = RECORD_KEYS
  | inl _ => False
  end.
Proof.
  revert w. induction n as [|n IH]; intros w; [exact I|].
  rewrite parse_attempts_next.
  destruct (attempt url w) as [[e|[r|]] w'] eqn:E; try apply IH.
  simpl. now apply attempt_returns in E.
Qed.

Lemma parse_detail_result (href : str) (retry : Z) (w : W) :
  match fst (parse_detail href retry w) with
  | inr None => True
  | inr (Some r) => usable r /\ dict_keys r = RECORD_KEYS
  | inl _ => False
  end.
Proof. apply parse_attempts_result. Qed.

Lemma tagged_update (d : dict) (stamp : str) (i : Z) :
  usable d -> dict_keys d = RECORD_KEYS ->
  tagged (dict_update d
            [(u "source", PyStr (u "wanted")); (u "crawled_at", PyStr stamp);
             (u "link_index", PyInt i)]).
Proof.
  intros (t & c & Ht & Hc & Htc) Hk. split.
  - exists t, c.
    rewrite !dict_update_get_other
      by (vm_compute; intuition discriminate).
    auto.
  - rewrite dict_update_get_other by (vm_compute; intuition discriminate).
    apply dict_get_none_keys. rewrite Hk. vm_compute. intuition discriminate.
Qed.

(** A delay is waited when it is accepted, and raises at once when it
    is not. *)
Lemma time_sleep_accepted (ns : Z) (w : W) :
  accepted ns -> time_sleep ns w = (inr tt, sleep ns w).
Proof.
  unfold accepted, time_sleep, NS_MIN, NS_MAX. intros H.
  replace (ns <? - 2 ^ 63)%Z with false by (symmetry; apply Z.ltb_ge; lia).
  replace (2 ^ 63 - 1 <? ns)%Z with false by (symmetry; apply Z.ltb_ge; lia).
  replace (ns <? 0)%Z with false by (symmetry; apply Z.ltb_ge; lia).
  reflexivity.
Qed.

Lemma time_sleep_refused (ns : Z) (w : W) :
  ~ accepted ns -> exists e, time_sleep ns w = (inl e, w).
Proof.
  unfold accepted, time_sleep. intros H.
  destruct ((ns <? NS_MIN)%Z || (NS_MAX <? ns)%Z) eqn:Eo; [eexists; reflexivity|].
  destruct (ns <? 0)%Z eqn:En; [eexists; reflexivity|].
  apply orb_false_iff in Eo. destruct Eo as [_ Eo].
  apply Z.ltb_ge in Eo, En. tauto.
Qed.

Lemma time_sleep_cases (ns : Z) (w : W) :
  (accepted ns /\ time_sleep ns w = (inr tt, sleep ns w)) \/
  (~ accepted ns /\ exists e, time_sleep ns w = (inl e, w)).
Proof.
  assert (D : accepted ns \/ ~ accepted ns) by (unfold accepted; lia).
  destruct D as [H|H]; [left | right]; (split; [exact H|]).
  - now apply time_sleep_accepted.
  - now apply time_sleep_refused.
Qed.

(** One turn of the loop over the links: the fetch, then the pause. *)
Lemma crawl_loop_next (self : Crawler) (i : nat) (href : str)
    (rest : list str) (jobs : list dict) (w : W) :
  crawl_loop self i (href :: rest) jobs w =
  match parse_detail href 2 w with
  | (inl e, w1) => (inl e, w1)
  | (inr job_detail, w1) =>
    match time_sleep (seconds (crawl_delay self)) w1 with
    | (inl e, w2) => (inl e, w2)
    | (inr _, w2) =>
      crawl_loop self (S i) rest
        (with_fetched jobs i (now_isoformat w1) job_detail) w2
    end
  end.
Proof.
  cbn [crawl_loop]. unfold bind at 1.
  destruct (parse_detail href 2 w) as [[e|job] w1]; [reflexivity|].
  destruct job as [[|kv d]|]; unfold bind, observe, ret, with_fetched;
    destruct (time_sleep _ w1) as [[e|[]] w2]; reflexivity.
Qed.

Lemma crawl_loop_result (self : Crawler) (links : list str) :
  forall (i : nat) (jobs : list dict) (w : W),
    Forall tagged jobs ->
    match fst (crawl_loop self i links jobs w) with
    | inr jobs' => Forall tagged jobs'
    | inl _ => links <> [] /\ ~ accepted (seconds (crawl_delay self))
    end.
Proof.
  induction links as [|href links IH]; intros i jobs w Hjobs; [exact Hjobs|].
  rewrite crawl_loop_next.
  pose proof (parse_detail_result href 2 w) as P.
  destruct (parse_detail href 2 w) as [[e|job] w1]; simpl in P; [contradiction|].
  destruct (time_sleep_cases (seconds (crawl_delay self)) w1)
    as [[Ha E]|[Hr [e E]]]; rewrite E.
  - assert (Htag : Forall tagged
                     (with_fetched jobs i (now_isoformat w1) job)).
    { destruct job as [[|kv d]|]; cbn [with_fetched]; try assumption.
      apply Forall_app. split; [assumption|].
      constructor; [|constructor]. now apply tagged_update. }
    specialize (IH (S i) _ (sleep (seconds (crawl_delay self)) w1) Htag).
    destruct (fst (crawl_loop self (S i) links _ _)) as [e|jobs'].
    + split; [discriminate | tauto].
    + exact IH.
  - simpl. split; [discriminate | assumption].
Qed.

Lemma crawl_job_details_result (self : Crawler) (links : list str) (w : W) :
  match fst (crawl_job_details self links w) with
  | inr jobs => Forall tagged jobs
  | inl _ => links <> [] /\ ~ accepted (seconds (crawl_delay self))
  end.
Proof. apply crawl_loop_result. constructor. Qed.

(** When no attempt yields a record, the loop runs out and returns
    [None]. *)
Lemma parse_attempts_exhausted (url : str) :
  (forall w r w', attempt url w <> (inr (Some r), w')) ->
  forall n w, fst (parse_attempts n url w) = inr None.
Proof.
  intros Hnone. induction n as [|n IH]; intros w; [reflexivity|].
  rewrite parse_attempts_next.
  destruct (attempt url w) as [[e|[r|]] w'] eqn:E; try apply IH.
  now apply Hnone in E.
Qed.

(** C5: [parse_detail] returns [None] or a record whose title or company
    is non-empty, and never raises; a record comes back only from an
    attempt that found a title or a company; an attempt that did not,
    like one that raised, is followed by the remaining attempts; when no
    attempt yields a record, or none is allowed, the result is [None];
    and every record [crawl_job_details] collects with the default of 2
    attempts, which are the records handed to document creation, has a
    title or a company.  [crawl_job_details] itself raises only from the
    pause between two fetches, when [time.sleep] refuses the delay, and
    then hands nothing on. *)
Theorem parse_detail_usable_or_none
    (self : Crawler) (href : str) (retry : Z) (links : list str) (w : W) :
  match fst (parse_detail href retry w) with
  | inr None => True
  | inr (Some r) => usable r
  | inl _ => False
  end /\
  match fst (attempt (BASE_URL ++ href) w) with
  | inr (Some r) => usable r
  | _ => True
  end /\
  (forall n,
      parse_attempts (S n) (BASE_URL ++ href) w =
      match attempt (BASE_URL ++ href) w with
      | (inr (Some r), w') => (inr (Some r), w')
      | (inr None, w') => parse_attempts n (BASE_URL ++ href) w'
      | (inl _, w') =>
        parse_attempts n (BASE_URL ++ href) (sleep HALF_SECOND w')
      end) /\
  ((forall w0 r w', attempt (BASE_URL ++ href) w0 <> (inr (Some r), w')) ->
   fst (parse_detail href retry w) = inr None) /\
  ((retry <= 0)%Z -> parse_detail href retry w = (inr None, w)) /\
  match fst (crawl_job_details self links w) with
  | inr jobs => Forall usable jobs
  | inl _ => links <> [] /\ ~ accepted (seconds (crawl_delay self))
  end.
Proof.
  split; [|split; [|split; [|split; [|split]]]].
  - pose proof (parse_detail_result href retry w) as P.
    destruct (fst (parse_detail href retry w)) as [e|[r|]]; tauto.
  - destruct (attempt (BASE_URL ++ href) w) as [[e|[r|]] w'] eqn:E; simpl; auto.
    now apply attempt_returns in E.
  - intros n. apply parse_attempts_next.
  - intros Hnone. now apply parse_attempts_exhausted.
  - intros Hretry. unfold parse_detail.
    replace (Z.to_nat retry) with 0 by lia. reflexivity.
  - pose proof (crawl_job_details_result self links w) as P.
    destruct (fst (crawl_job_details self links w)) as [e|jobs]; [exact P|].
    eapply Forall_impl; [|exact P]. now intros d [H _].
Qed.

End Fetching.

(** ** Link discovery *)

Lemma set_mem_in (x : str) (s : pyset) : set_mem x s = true <-> In x s.
Proof.
  unfold set_mem. rewrite existsb_exists. split.
  - intros [y [Hy E]]. apply str_eqb_eq in E. now subst.
  - intros H. exists x. split; [assumption | apply str_eqb_refl].
Qed.

Lemma set_add_nodup (x : str) (s : pyset) : NoDup s -> NoDup (set_add x s).
Proof.
  intros H. unfold set_add. destruct (set_mem x s) eqn:E; [assumption|].
  apply NoDup_app; [assumption | repeat constructor; intros [] |].
  intros y Hy [<-|[]]. apply set_mem_in in Hy. congruence.
Qed.

Lemma set_add_length (x : str) (s : pyset) : length s <= length (set_add x s).
Proof.
  unfold set_add. destruct (set_mem x s); [lia|]. rewrite length_app. lia.
Qed.

Lemma set_add_known (x : str) (s : pyset) : In x s -> set_add x s = s.
Proof.
  intros H. unfold set_add. apply set_mem_in in H. now rewrite H.
Qed.

Lemma set_add_in (x y : str) (s : pyset) :
  In y (set_add x s) <-> y = x \/ In y s.
Proof.
  unfold set_add. destruct (set_mem x s) eqn:E.
  - apply set_mem_in in E. split; [now right | intros [->|H]; assumption].
  - rewrite in_app_iff. simpl. intuition.
Qed.

Lemma firstn_nodup {A} (n : nat) (l : list A) : NoDup l -> NoDup (firstn n l).
Proof.
  intros H. rewrite <- (firstn_skipn n l) in H.
  now apply NoDup_app_remove_r in H.
Qed.

Lemma slice_to_nodup {A} (n : Z) (l : list A) : NoDup l -> NoDup (slice_to n l).
Proof. unfold slice_to. destruct (0 <=? n)%Z; apply firstn_nodup. Qed.

Lemma slice_to_length {A} (n : Z) (l : list A) :
  (0 <= n)%Z -> length (slice_to n l) <= Z.to_nat n.
Proof.
  intros H. unfold slice_to. apply Z.leb_le in H. rewrite H.
  apply firstn_le_length.
Qed.

Lemma firstn_incl {A} (n : nat) (l : list A) : incl (firstn n l) l.
Proof.
  intros x H. rewrite <- (firstn_skipn n l). apply in_or_app. now left.
Qed.

Lemma slice_to_incl {A} (n : Z) (l : list A) : incl (slice_to n l) l.
Proof. unfold slice_to. destruct (0 <=? n)%Z; apply firstn_incl. Qed.

Lemma leading_voids_app (l : list cycle_end) (c : cycle_end) :
  leading_voids (l ++ [c]) =
  if forallb (fun c => added_count c =? 0) l
  then length l + (if added_count c =? 0 then 1 else 0)
  else leading_voids l.
Proof.
  induction l as [|a l IH]; simpl.
  - destruct (added_count c =? 0); reflexivity.
  - destruct (added_count a =? 0); simpl; [|reflexivity].
    rewrite IH. now destruct (forallb _ l).
Qed.

Lemma forallb_rev {A} (f : A -> bool) (l : list A) :
  forallb f (rev l) = forallb f l.
Proof.
  induction l as [|a l IH]; simpl; [reflexivity|].
  rewrite forallb_app, IH. simpl. rewrite andb_true_r. apply andb_comm.
Qed.

Section Discovery.

Context {markup tag element W : Type}.
Context {soup_ops : Soup markup tag}.
Context {world_ops : World W markup element}.
Context {set_order : SetOrder}.

Lemma scan_step_nodup (hs : pyset) (a : tag) :
  NoDup hs -> NoDup (scan_step hs a).
Proof.
  intros H. unfold scan_step. destruct (attr_get (u "href") a) as [h|]; [|exact H].
  destruct (truthy h); [now apply set_add_nodup | exact H].
Qed.

Lemma scan_step_length (hs : pyset) (a : tag) :
  length hs <= length (scan_step hs a).
Proof.
  unfold scan_step. destruct (attr_get (u "href") a) as [h|]; [|lia].
  destruct (truthy h); [apply set_add_length | lia].
Qed.

Lemma scan_nodup (soup : tag) (hs : pyset) : NoDup hs -> NoDup (scan soup hs).
Proof.
  unfold scan. generalize (select CARD_LINK soup). intros l. revert hs.
  induction l as [|a l IH]; simpl; intros hs H; [exact H|].
  apply IH. now apply scan_step_nodup.
Qed.

Lemma scan_length (soup : tag) (hs : pyset) : length hs <= length (scan soup hs).
Proof.
  unfold scan. generalize (select CARD_LINK soup). intros l. revert hs.
  induction l as [|a l IH]; simpl; intros hs; [lia|].
  specialize (IH (scan_step hs a)). pose proof (scan_step_length hs a). lia.
Qed.

Lemma scan_step_members (hs : pyset) (a : tag) (h : str) :
  In h (scan_step hs a) <->
  In h hs \/ (h <> [] /\ attr_get (u "href") a = Some h).
Proof.
  unfold scan_step. destruct (attr_get (u "href") a) as [x|].
  - destruct x as [|c x]; simpl truthy; cbv iota.
    + split; [now left | intros [H|[H E]]; [assumption | congruence]].
    + rewrite set_add_in. split.
      * intros [->|H]; [right; split; [discriminate | reflexivity] | now left].
      * intros [H|[_ E]]; [now right | left; congruence].
  - split; [now left | intros [H|[_ E]]; [assumption | discriminate]].
Qed.

(** A scan adds exactly the links of the card anchors of the page. *)
Lemma scan_members (soup : tag) (hs : pyset) (h : str) :
  In h (scan soup hs) <-> In h hs \/ card_link soup h.
Proof.
  unfold scan, card_link. generalize (select CARD_LINK soup). intros l.
  revert hs. induction l as [|a l IH]; intros hs; simpl.
  - split; [now left | intros [H|(_ & a & [] & _)]; assumption].
  - rewrite IH, scan_step_members. split.
    + intros [[H|[Hn E]]|(Hn & b & Hb & E)]; eauto 8.
    + intros [H|(Hn & b & [<-|Hb] & E)]; eauto 8.
Qed.

Lemma scan_step_known (hs : pyset) (a : tag) :
  (forall h, h <> [] -> attr_get (u "href") a = Some h -> In h hs) ->
  scan_step hs a = hs.
Proof.
  intros H. unfold scan_step. destruct (attr_get (u "href") a) as [x|];
    [|reflexivity].
  destruct x as [|c x]; [reflexivity|]. simpl truthy. cbv iota.
  apply set_add_known. apply H; [discriminate | reflexivity].
Qed.

Lemma scan_known (soup : tag) (hs : pyset) :
  (forall h, card_link soup h -> In h hs) -> scan soup hs = hs.
Proof.
  unfold scan, card_link. generalize (select CARD_LINK soup). intros l.
  induction l as [|a l IH]; intros H; simpl; [reflexivity|].
  rewrite scan_step_known.
  - apply IH. intros h (Hn & b & Hb & E). apply H.
    split; [assumption|]. exists b. split; [now right | assumption].
  - intros h Hn E. apply H.
    split; [assumption|]. exists a. split; [now left | assumption].
Qed.

Variables (max pause : Z).

(** What a cycle that returns has done: it has read a page, scanned its
    parse, and either stopped on a full set or scrolled, waited and
    measured. *)
Lemma cycle_returns (st : session) (w w' : W) (c : cycle_end) :
  cycle max pause st w = (inr c, w') ->
  cycle_ok st c /\
  (broke c = true <-> size_reached max c \/ height_stable st c) /\
  (NoDup (hrefs st) -> NoDup (hrefs (next c))) /\
  exists page, cycle_of max pause st w page c w'.
Proof.
  unfold cycle, bind, ret, lift. intros H.
  destruct (page_source w) as [[e|page] w1] eqn:Ep; [discriminate|].
  destruct (BeautifulSoup page) as [e|soup] eqn:Es; [discriminate|].
  set (hs := scan soup (hrefs st)) in *.
  pose proof (scan_length soup (hrefs st)) as Hlen.
  pose proof (@scan_nodup soup (hrefs st)) as Hnd.
  fold hs in Hlen, Hnd.
  assert (Hvoid : forall v, (if 0 <? length hs - length (hrefs st) then 0 else v + 1)
                  = (if 0 <? length hs - length (hrefs st) then 0 else S v)).
  { intros v. destruct (0 <? _); lia. }
  unfold cycle_ok, size_reached, height_stable.
  destruct (max <=? Z.of_nat (length hs))%Z eqn:Esz.
  - inversion H; subst; clear H; simpl. apply Z.leb_le in Esz.
    split; [repeat split; try lia; apply Hvoid|].
    split; [split; [now left | reflexivity]|].
    split; [exact Hnd|].
    exists page. now apply cycle_full with (soup := soup).
  - apply Z.leb_gt in Esz.
    destruct (scroll_to_bottom w1) as [[e|[]] w2] eqn:Eb; [discriminate|].
    destruct (time_sleep pause w2) as [[e|[]] w3] eqn:Et; [discriminate|].
    destruct (scroll_height w3) as [[e|h] w4] eqn:Eh'; [discriminate|].
    assert (Hcyc : forall c0,
               hrefs (next c0) = hs -> new_height c0 = Some h ->
               cycle_of max pause st w page c0 w4).
    { intros c0 Hc0 Hn.
      apply cycle_scrolled with (soup := soup) (w1 := w1) (w2 := w2)
                                (w3 := w3) (h := h); try assumption.
      rewrite Hc0. exact Esz. }
    destruct (h =? last_height st)%Z eqn:Eh; inversion H; subst; clear H; simpl.
    + apply Z.eqb_eq in Eh. subst h.
      split; [repeat split; try lia; apply Hvoid|].
      split; [split; [now right | reflexivity]|].
      split; [exact Hnd|].
      exists page. now apply Hcyc.
    + apply Z.eqb_neq in Eh.
      split; [repeat split; try lia; apply Hvoid|].
      split; [split; [discriminate | intros [F|F]; [lia | congruence]]|].
      split; [exact Hnd|].
      exists page. now apply Hcyc.
Qed.

Lemma loop_test_true (st : session) :
  loop_test max st = true <->
  (Z.of_nat (length (hrefs st)) < max)%Z /\ void_cnt st < 3.
Proof.
  unfold loop_test. now rewrite andb_true_iff, Z.ltb_lt, Nat.ltb_lt.
Qed.

Lemma loop_test_false (st : session) :
  loop_test max st = false <->
  (max <= Z.of_nat (length (hrefs st)))%Z \/ 3 <= void_cnt st.
Proof.
  unfold loop_test. rewrite andb_false_iff, Z.ltb_ge, Nat.ltb_ge. tauto.
Qed.

(** Every cycle uses up budget. *)
Lemma budget_decreases (st : session) (c : cycle_end) :
  loop_test max st = true -> cycle_ok st c ->
  budget max (next c) < budget max st.
Proof.
  intros Ht (Hlen & Hvoid & _). apply loop_test_true in Ht.
  unfold budget. rewrite Hlen, Hvoid.
  destruct (0 <? added_count c) eqn:E.
  - apply Nat.ltb_lt in E. lia.
  - apply Nat.ltb_ge in E. lia.
Qed.

Lemma budget_positive (st : session) :
  loop_test max st = true -> 0 < budget max st.
Proof. intros Ht. apply loop_test_true in Ht. unfold budget. lia. Qed.

(** With fuel for the budget the loop ends by itself. *)
Lemma discovery_loop_fuel (fuel : nat) :
  forall (st : session) (w : W),
    budget max st <= fuel ->
    fst (discovery_loop fuel max pause st w) <> inr None.
Proof.
  induction fuel as [|f IH]; intros st w Hb; simpl;
    destruct (loop_test max st) eqn:Ht; try discriminate.
  - apply budget_positive in Ht. lia.
  - unfold bind.
    destruct (cycle max pause st w) as [[e|c] w1] eqn:Ec; [discriminate|].
    destruct (broke c); [discriminate|].
    apply cycle_returns in Ec. destruct Ec as (Hok & _).
    pose proof (budget_decreases Ht Hok) as Hd.
    specialize (IH (next c) w1 ltac:(lia)).
    destruct (discovery_loop f max pause (next c) w1) as [[e|[r|]] w2];
      simpl in *; congruence.
Qed.

(** More fuel than the budget changes nothing. *)
Lemma discovery_loop_more (f1 : nat) :
  forall (f2 : nat) (st : session) (w : W),
    budget max st <= f1 -> budget max st <= f2 ->
    discovery_loop f1 max pause st w = discovery_loop f2 max pause st w.
Proof.
  induction f1 as [|f1 IH]; intros [|f2] st w H1 H2; simpl;
    destruct (loop_test max st) eqn:Ht; try reflexivity;
    try (apply budget_positive in Ht; lia).
  unfold bind.
  destruct (cycle max pause st w) as [[e|c] w1] eqn:Ec; [reflexivity|].
  destruct (broke c); [reflexivity|].
  apply cycle_returns in Ec. destruct Ec as (Hok & _).
  pose proof (budget_decreases Ht Hok) as Hd.
  rewrite (IH f2 (next c) w1); [reflexivity | lia | lia].
Qed.

(** The run a finished loop reports. *)
Lemma discovery_loop_run (fuel : nat) :
  forall (st s : session) (tr : list cycle_end) (w w' : W),
    discovery_loop fuel max pause st w = (inr (Some (s, tr)), w') ->
    run_ok max st tr /\ s = final st tr /\
    (tr = [] <-> loop_test max st = false) /\
    (NoDup (hrefs st) -> NoDup (hrefs s)) /\
    length tr <= budget max st /\
    exists pages, run_of max pause st w pages tr w'.
Proof.
  assert (Hdone : forall st s tr (w w' : W),
             loop_test max st = false ->
             ret (Some (st, @nil cycle_end)) w = (inr (Some (s, tr)), w') ->
             run_ok max st tr /\ s = final st tr /\
             (tr = [] <-> loop_test max st = false) /\
             (NoDup (hrefs st) -> NoDup (hrefs s)) /\
             length tr <= budget max st /\
             exists pages, run_of max pause st w pages tr w').
  { intros st s tr w w' Ht H. inversion H; subst. simpl.
    split; [exact I|]. split; [reflexivity|]. split; [tauto|].
    split; [auto|]. split; [lia|]. exists []. constructor. }
  induction fuel as [|f IH]; intros st s tr w w' H; simpl in H;
    destruct (loop_test max st) eqn:Ht; try discriminate;
    try (pose proof (Hdone _ _ _ _ _ Ht H) as R; rewrite Ht in R; exact R).
  unfold bind in H.
  destruct (cycle max pause st w) as [[e|c] w1] eqn:Ec; [discriminate|].
  apply cycle_returns in Ec. destruct Ec as (Hok & Hbroke & Hnd & page & Hcyc).
  pose proof (budget_decreases Ht Hok) as Hd.
  assert (Hv : void_cnt (next c) <= 3).
  { destruct Hok as (_ & Hv & _). apply loop_test_true in Ht.
    rewrite Hv. destruct (0 <? added_count c); lia. }
  destruct (broke c) eqn:Eb.
  - inversion H; subst; clear H. simpl.
    split; [|split; [reflexivity|split; [|split; [assumption | split; [lia|]]]]].
    + split; [assumption|]. split; [|exact I]. split; [|reflexivity].
      intros _. unfold stop_cond. apply proj1 in Hbroke. tauto.
    + split; discriminate.
    + exists [page]. eapply run_step; [exact Hcyc | constructor].
  - destruct (discovery_loop f max pause (next c) w1) as [[e|[[s1 tr1]|]] w2] eqn:El;
      try discriminate.
    unfold ret in H. simpl in H. inversion H; subst; clear H.
    apply IH in El. destruct El as (Hrun & Hs & Hnil & Hnd1 & Hlen & pages & Hpages).
    simpl.
    split; [|split; [assumption|split; [|split; [auto | split; [lia|]]]]].
    + split; [assumption|]. split; [|assumption]. split.
      * intros ->. apply proj1 in Hnil. specialize (Hnil eq_refl).
        apply loop_test_false in Hnil.
        unfold stop_cond, size_reached, three_voids.
        destruct Hnil; [left; assumption | right; right; lia].
      * intros [Hsz|[Hh|Hv3]].
        -- assert (false = true) by (apply Hbroke; now left). discriminate.
        -- assert (false = true) by (apply Hbroke; now right). discriminate.
        -- apply Hnil. apply loop_test_false. right.
           unfold three_voids in Hv3. lia.
    + split; discriminate.
    + exists (page :: pages). eapply run_step; eassumption.
Qed.

(** A cycle raises only what one of its calls raised. *)
Lemma cycle_cut_short (st : session) (w w' : W) (e : exn) :
  cycle max pause st w = (inl e, w') -> cycle_raises max pause st w e w'.
Proof.
  unfold cycle, bind, ret, lift. intros H.
  destruct (page_source w) as [[e0|page] w1] eqn:Ep.
  { inversion H; subst. now apply raises_page. }
  destruct (BeautifulSoup page) as [e0|soup] eqn:Es.
  { inversion H; subst. eapply raises_parse; eassumption. }
  destruct (max <=? Z.of_nat (length (scan soup (hrefs st))))%Z eqn:Esz;
    [discriminate|].
  apply Z.leb_gt in Esz.
  destruct (scroll_to_bottom w1) as [[e0|[]] w2] eqn:Eb.
  { inversion H; subst. eapply raises_scroll; eassumption. }
  destruct (time_sleep pause w2) as [[e0|[]] w3] eqn:Et.
  { inversion H; subst. eapply raises_pause; eassumption. }
  destruct (scroll_height w3) as [[e0|h] w4] eqn:Eh.
  { inversion H; subst. eapply raises_height; eassumption. }
  destruct (h =? last_height st)%Z; discriminate.
Qed.

(** A loop that raises ran some cycles and was cut short in the next. *)
Lemma discovery_loop_cut_short (fuel : nat) :
  forall (st : session) (w w' : W) (e : exn),
    discovery_loop fuel max pause st w = (inl e, w') ->
    exists pages tr w1,
      run_of max pause st w pages tr w1 /\
      cycle_raises max pause (final st tr) w1 e w'.
Proof.
  induction fuel as [|f IH]; intros st w w' e H; simpl in H;
    destruct (loop_test max st); try discriminate.
  unfold bind in H.
  destruct (cycle max pause st w) as [[e0|c] w1] eqn:Ec.
  - inversion H; subst. exists [], [], w. split; [constructor|].
    now apply cycle_cut_short.
  - destruct (broke c); [discriminate|].
    destruct (discovery_loop f max pause (next c) w1) as [[e0|r] w2] eqn:El;
      [|discriminate].
    inversion H; subst. apply IH in El.
    destruct El as (pages & tr & w3 & Hrun & Hcut).
    apply cycle_returns in Ec. destruct Ec as (_ & _ & _ & page & Hcyc).
    exists (page :: pages), (c :: tr), w3.
    split; [eapply run_step; eassumption | exact Hcut].
Qed.

(** The set a run ends with holds what it started with and the links of
    the card anchors of the pages read, and nothing else. *)
Lemma run_members (p : session) (w w' : W) (pages : list markup)
    (tr : list cycle_end) :
  run_of max pause p w pages tr w' ->
  forall h, In h (hrefs (final p tr)) <-> In h (hrefs p) \/ shown_in pages h.
Proof.
  induction 1 as [p w|p w page c w1 pages tr w' Hc Hrun IH]; intros h; simpl.
  - split; [now left | intros [H|(page & soup & [] & _)]; exact H].
  - rewrite IH.
    assert (Hs : exists soup, BeautifulSoup page = inr soup /\
                              hrefs (next c) = scan soup (hrefs p))
      by (destruct Hc; eauto).
    destruct Hs as (soup & Hp & Hh). rewrite Hh, scan_members.
    unfold shown_in. split.
    + intros [[H|H]|(pg & sp & Hin & Hpp & Hcl)].
      * now left.
      * right. exists page, soup. split; [now left|]. now split.
      * right. exists pg, sp. split; [now right|]. now split.
    + intros [H|(pg & sp & [<-|Hin] & Hpp & Hcl)].
      * left. now left.
      * left. right. rewrite Hp in Hpp. inversion Hpp; subst. exact Hcl.
      * right. exists pg, sp. split; [assumption|]. now split.
Qed.

(** The void counter is the number of cycles at the end of the run that
    added nothing. *)
Lemma run_void_cnt (tr : list cycle_end) :
  forall p, run_ok max p tr ->
  void_cnt (final p tr) =
  if forallb (fun c => added_count c =? 0) tr
  then void_cnt p + length tr
  else trailing_voids tr.
Proof.
  induction tr as [|c rest IH]; intros p H; simpl; [lia|].
  destruct H as ((_ & Hv & _) & _ & Hrest).
  rewrite (IH _ Hrest), Hv. unfold trailing_voids. simpl rev.
  rewrite leading_voids_app, forallb_rev, length_rev.
  destruct (added_count c) as [|n] eqn:Ea; simpl;
    destruct (forallb _ rest); lia.
Qed.

End Discovery.

Lemma leading_voids_all (l : list cycle_end) :
  forallb (fun c => added_count c =? 0) l = true ->
  leading_voids l = length l.
Proof.
  induction l as [|c l IH]; simpl; [reflexivity|].
  destruct (added_count c =? 0); simpl; [|discriminate].
  intros H. now rewrite IH.
Qed.

Section Collecting.

Context {markup tag element W : Type}.
Context {soup_ops : Soup markup tag}.
Context {world_ops : World W markup element}.
Context {set_order : SetOrder}.

Variable self : Crawler.

Lemma budget_start : budget (max_links self) start = enough (max_links self).
Proof. unfold budget, start, enough. simpl. lia. Qed.

(** What [discover] returns comes from a finished loop. *)
Lemma discover_returns (fuel : nat) (w w' : W)
    (links : list str) (tr : list cycle_end) :
  discover fuel self w = (inr (Some (links, tr)), w') ->
  exists s w1 w2,
    driver_get LIST_URL w = (inr tt, w1) /\
    wait_presence 30 CARD_LINK w1 = (inr tt, w2) /\
    discovery_loop fuel (max_links self) (scroll_pause self) start w2
      = (inr (Some (s, tr)), w') /\
    links = slice_to (max_links self) (set_iter (hrefs s)).
Proof.
  unfold discover, bind, ret. intros H.
  destruct (driver_get LIST_URL w) as [[e|[]] w1] eqn:Eg; [discriminate|].
  destruct (wait_presence 30 CARD_LINK w1) as [[e|[]] w2] eqn:Ew;
    [discriminate|].
  destruct (discovery_loop fuel _ _ start w2) as [[e|[[s tr']|]] w3] eqn:E;
    try discriminate.
  simpl in H. inversion H; subst. exists s, w1, w2.
  repeat split; assumption.
Qed.

Lemma discover_fuel (fuel : nat) (w : W) :
  enough (max_links self) <= fuel ->
  fst (discover fuel self w) <> inr None.
Proof.
  intros Hf. unfold discover, bind, ret.
  destruct (driver_get LIST_URL w) as [[e|[]] w1]; [discriminate|].
  destruct (wait_presence 30 CARD_LINK w1) as [[e|[]] w2]; [discriminate|].
  pose proof (@discovery_loop_fuel _ _ _ _ _ _ (max_links self)
                (scroll_pause self) fuel start w2) as P.
  rewrite budget_start in P. specialize (P Hf).
  destruct (discovery_loop fuel _ _ start w2) as [[e|[r|]] w3];
    simpl in *; congruence.
Qed.

Lemma discover_more (f1 f2 : nat) (w : W) :
  enough (max_links self) <= f1 -> enough (max_links self) <= f2 ->
  discover f1 self w = discover f2 self w.
Proof.
  intros H1 H2. unfold discover, bind.
  destruct (driver_get LIST_URL w) as [[e|[]] w1]; [reflexivity|].
  destruct (wait_presence 30 CARD_LINK w1) as [[e|[]] w2]; [reflexivity|].
  rewrite (@discovery_loop_more _ _ _ _ _ _ (max_links self)
             (scroll_pause self) f1 f2 start w2);
    [reflexivity | rewrite budget_start; lia | rewrite budget_start; lia].
Qed.

(** [collect_job_links] in terms of its [try] body. *)
Lemma collect_job_links_cases (w : W) :
  collect_job_links self w =
  match discover (enough (max_links self)) self w with
  | (inr (Some (links, _)), w') => (inr links, w')
  | (inr None, w') => (inr [], w')
  | (inl _, w') => (inr [], w')
  end.
Proof.
  unfold collect_job_links, collect_job_links_fuel, bind, try_except, ret.
  destruct (discover _ self w) as [[e|[[links tr]|]] w']; reflexivity.
Qed.

(** What raises in [discover] is what a collaborator raised. *)
Lemma discover_raises (fuel : nat) (w w' : W) (e : exn) :
  discover fuel self w = (inl e, w') -> discovery_cut_short self w e w'.
Proof.
  unfold discover, bind, ret, discovery_cut_short, discovery_of. intros H.
  destruct (driver_get LIST_URL w) as [[e0|[]] w1] eqn:Eg.
  { left. inversion H; subst. reflexivity. }
  right.
  destruct (wait_presence 30 CARD_LINK w1) as [[e0|[]] w2] eqn:Ew.
  { left. inversion H; subst. now exists w1. }
  right.
  destruct (discovery_loop fuel _ _ start w2) as [[e0|r] w3] eqn:E;
    [|discriminate].
  inversion H; subst. apply discovery_loop_cut_short in E.
  destruct E as (pages & tr & w3 & Hrun & Hcut).
  exists pages, tr, w3. split; [now exists w1, w2 | exact Hcut].
Qed.

(** What a finished discovery has done and found. *)
Lemma discover_run (w w' : W) (links : list str) (tr : list cycle_end) :
  discover (enough (max_links self)) self w = (inr (Some (links, tr)), w') ->
  links = slice_to (max_links self) (set_iter (hrefs (final start tr))) /\
  NoDup (hrefs (final start tr)) /\
  run_ok (max_links self) start tr /\
  (tr = [] <-> (max_links self <= 0)%Z) /\
  length tr <= enough (max_links self) /\
  exists pages,
    discovery_of self w pages tr w' /\
    forall h, In h (hrefs (final start tr)) <-> shown_in pages h.
Proof.
  intros E. apply discover_returns in E.
  destruct E as (s & w1 & w2 & Hget & Hwait & E & ->).
  apply discovery_loop_run in E.
  destruct E as (Hrun & -> & Hnil & Hnd & Hlen & pages & Hpages).
  rewrite budget_start in Hlen.
  split; [reflexivity|]. split; [apply Hnd; constructor|].
  split; [assumption|]. split; [|split; [assumption|]].
  - rewrite Hnil, loop_test_false. simpl. lia.
  - exists pages. split; [now exists w1, w2|].
    intros h. rewrite (run_members Hpages). simpl. tauto.
Qed.

(** C2: the discovery loop ends within [3 * max_links] cycles, and with
    that much fuel or more the model never runs out.  The cycles it
    reports are the cycles the browser saw: each read a page source and
    scanned it, and either stopped on a full set or scrolled, waited and
    measured the height.  In that run a stop condition (the set has
    reached [max_links], the height measured equals the one the previous
    cycle left, or the void counter is 3) holds after the last cycle and
    after no earlier one, no cycle at all is run exactly when
    [max_links <= 0], and the void counter is the number of cycles at
    the end of the run that added no link, a cycle that adds a link
    setting it back to zero.  The only other way out of the loop is the
    exception of a collaborator call, which cuts a cycle short. *)
Theorem discovery_terminates_and_stops (w : W) (k : nat) :
  discover (enough (max_links self) + k) self w
    = discover (enough (max_links self)) self w /\
  match discover (enough (max_links self)) self w with
  | (inr None, _) => False
  | (inl e, w') => discovery_cut_short self w e w'
  | (inr (Some (links, tr)), w') =>
    length tr <= 3 * Z.to_nat (max_links self) /\
    (exists pages, discovery_of self w pages tr w') /\
    run_ok (max_links self) start tr /\
    (tr = [] <-> (max_links self <= 0)%Z) /\
    void_cnt (final start tr) = trailing_voids tr
  end.
Proof.
  split; [apply discover_more; lia|].
  pose proof (@discover_fuel (enough (max_links self)) w (le_n _)) as Hfuel.
  destruct (discover _ self w) as [[e|[[links tr]|]] w'] eqn:E;
    [now apply discover_raises in E | | now apply Hfuel].
  apply discover_run in E.
  destruct E as (_ & _ & Hrun & Hnil & Hlen & pages & Hpages & _).
  unfold enough in Hlen.
  split; [assumption|]. split; [now exists pages|].
  split; [assumption|]. split; [assumption|].
  rewrite (run_void_cnt (max_links self) tr start Hrun). simpl.
  destruct (forallb _ tr) eqn:Ea; [|reflexivity].
  unfold trailing_voids.
  rewrite leading_voids_all by (now rewrite forallb_rev).
  now rewrite length_rev.
Qed.

(** The links found are distinct, whatever the run. *)
Lemma discover_links (w w' : W) (links : list str) (tr : list cycle_end) :
  discover (enough (max_links self)) self w = (inr (Some (links, tr)), w') ->
  NoDup links /\ length links <= Z.to_nat (max_links self).
Proof.
  intros E. apply discover_run in E.
  destruct E as (-> & Hnd & _ & Hnil & _).
  assert (Hp : NoDup (set_iter (hrefs (final start tr)))).
  { eapply Permutation_NoDup; [|exact Hnd].
    apply Permutation_sym. now apply set_iter_perm. }
  split; [now apply slice_to_nodup|].
  destruct (Z.le_gt_cases 0 (max_links self)) as [Hpos|Hneg].
  - now apply slice_to_length.
  - (* a negative cap: no cycle ran, the set is empty *)
    assert (Htr : tr = []) by (apply Hnil; lia).
    subst tr. simpl.
    pose proof (set_iter_perm (NoDup_nil str)) as P.
    apply Permutation_sym, Permutation_nil in P. rewrite P.
    unfold slice_to.
    destruct (0 <=? max_links self)%Z; rewrite firstn_nil; simpl; lia.
Qed.

(** C1 (as amended): [collect_job_links] returns, without duplicates, at
    most [max_links] links, and none when [max_links] is negative. *)
Theorem collect_job_links_capped (w : W) :
  match fst (collect_job_links self w) with
  | inr links => length links <= Z.to_nat (max_links self) /\ NoDup links
  | inl _ => False
  end.
Proof.
  rewrite collect_job_links_cases.
  destruct (discover _ self w) as [[e|[[links tr]|]] w'] eqn:E; simpl;
    try (split; [lia | constructor]).
  apply discover_links in E. tauto.
Qed.

(** C4 (as amended): [collect_job_links] never raises; when anything in
    its [try] body raises, it returns the empty list, whatever had been
    found by then; otherwise it returns the links of the finished
    loop. *)
Theorem collect_job_links_catches (w : W) :
  match discover (enough (max_links self)) self w with
  | (inl _, w') => collect_job_links self w = (inr [], w')
  | (inr (Some (links, _)), w') => collect_job_links self w = (inr links, w')
  | (inr None, _) => False
  end.
Proof.
  pose proof (@discover_fuel (enough (max_links self)) w (le_n _)) as Hfuel.
  rewrite collect_job_links_cases.
  destruct (discover _ self w) as [[e|[[links tr]|]] w'];
    [reflexivity | reflexivity | now apply Hfuel].
Qed.

(** C3 (as amended): the links returned are the first [max_links] of the
    discovered set in the order the set yields them, whatever that order
    is; they are distinct, and the set holds exactly the links of the
    card anchors of the page sources read during the discovery.  So on
    a listing exposing a given choice of anchors (12, say) every link
    returned is among them, and as soon as the set has reached
    [max_links] (10, say), as it has when one page source read shows
    that many distinct links, exactly [max_links] links are returned. *)
Theorem collect_job_links_set_order (w : W) :
  match discover (enough (max_links self)) self w with
  | (inr (Some (links, tr)), w') =>
    collect_job_links self w = (inr links, w') /\
    links = slice_to (max_links self) (set_iter (hrefs (final start tr))) /\
    NoDup links /\ incl links (hrefs (final start tr)) /\
    ((0 <= max_links self <= Z.of_nat (length (hrefs (final start tr))))%Z ->
     length links = Z.to_nat (max_links self)) /\
    exists pages,
      discovery_of self w pages tr w' /\
      (forall h, In h (hrefs (final start tr)) <-> shown_in pages h) /\
      (forall shown,
          (forall h, shown_in pages h -> In h shown) -> incl links shown) /\
      (forall page soup shown,
          In page pages -> BeautifulSoup page = inr soup ->
          NoDup shown -> (forall h, In h shown -> card_link soup h) ->
          (0 <= max_links self <= Z.of_nat (length shown))%Z ->
          length links = Z.to_nat (max_links self))
  | _ => True
  end.
Proof.
  pose proof (collect_job_links_cases w) as Hcases.
  destruct (discover _ self w) as [[e|[[links tr]|]] w'] eqn:E; try exact I.
  apply discover_run in E.
  destruct E as (Hlinks & Hnd & _ & _ & _ & pages & Hpages & Hmem).
  set (found := hrefs (final start tr)) in *.
  assert (Hperm : Permutation (set_iter found) found)
    by (now apply set_iter_perm).
  assert (Hincl : incl links found).
  { intros h Hh. rewrite Hlinks in Hh. apply slice_to_incl in Hh.
    eapply Permutation_in; eassumption. }
  assert (Hfull : (0 <= max_links self <= Z.of_nat (length found))%Z ->
                  length links = Z.to_nat (max_links self)).
  { intros Hmax. rewrite Hlinks. unfold slice_to.
    replace (0 <=? max_links self)%Z with true
      by (symmetry; apply Z.leb_le; lia).
    rewrite length_firstn, (Permutation_length Hperm). lia. }
  split; [exact Hcases|]. split; [exact Hlinks|]. split.
  { rewrite Hlinks. apply slice_to_nodup.
    eapply Permutation_NoDup; [|exact Hnd]. now apply Permutation_sym. }
  split; [exact Hincl|]. split; [exact Hfull|].
  exists pages. split; [exact Hpages|]. split; [exact Hmem|]. split.
  - intros shown Hshown h Hh. apply Hshown, Hmem, Hincl, Hh.
  - intros page soup shown Hpage Hsoup Hdistinct Hcards Hmax.
    apply Hfull.
    assert (Hsub : incl shown found).
    { intros h Hh. apply Hmem. exists page, soup. auto. }
    pose proof (NoDup_incl_length Hdistinct Hsub). lia.
Qed.

End Collecting.

(** ** Hand-off to the vector store *)

#[local] Arguments Nat.div : simpl never.

Lemma range_step_next (n : nat) :
  range_step (batch_size + n) batch_size
  = 0 :: map (fun i => batch_size + i) (range_step n batch_size).
Proof.
  unfold range_step, batch_size.
  assert (E : (10 + n + 10 - 1) / 10 = S ((n + 10 - 1) / 10)).
  { replace (10 + n + 10 - 1) with (1 * 10 + (n + 10 - 1)) by lia.
    rewrite Nat.div_add_l by lia. lia. }
  rewrite E. generalize ((n + 10 - 1) / 10) as q. intros q.
  change (seq 0 (S q)) with (0 :: seq 1 q).
  rewrite <- seq_shift. cbn [map]. rewrite !map_map. f_equal.
Qed.

Lemma range_step_short (n : nat) :
  0 < n <= batch_size -> range_step n batch_size = [0].
Proof.
  unfold range_step, batch_size. intros H.
  replace ((n + 10 - 1) / 10) with 1; [reflexivity|].
  apply Nat.div_unique with (r := n - 1); lia.
Qed.

Lemma slice_shift {A} (i j k : nat) (l : list A) :
  slice (k + i) (k + j) l = slice i j (skipn k l).
Proof.
  unfold slice. rewrite skipn_skipn.
  replace (k + j - (k + i)) with (j - i) by lia.
  now replace (i + k) with (k + i) by lia.
Qed.

(** The batches put the list back together; all are full but possibly
    the last, and none is empty. *)
Lemma batches_facts {A} (n : nat) :
  forall (l : list A),
    length l = n ->
    concat (batches_of l) = l /\
    length (batches_of l) = (n + 9) / 10 /\
    forall j b, nth_error (batches_of l) j = Some b ->
                1 <= length b <= batch_size /\
                (S j < length (batches_of l) -> length b = batch_size).
Proof.
  induction n as [n IH] using (well_founded_induction lt_wf).
  intros l Hl. unfold batches_of. rewrite Hl.
  destruct (Nat.le_gt_cases n batch_size) as [Hle|Hgt].
  - destruct n as [|n'].
    + destruct l; [|discriminate]. cbn. repeat split.
      all: intros; destruct j; discriminate.
    + rewrite range_step_short by lia. cbn [map concat length].
      assert (E : slice 0 (0 + batch_size) l = l).
      { unfold slice. cbn [skipn]. apply firstn_all2. lia. }
      rewrite E, app_nil_r. unfold batch_size in Hle. split; [reflexivity|].
      split; [apply Nat.div_unique with (r := n'); lia|].
      intros j b H. destruct j as [|[|j]]; cbn in H; inversion H; subst.
      split; [unfold batch_size; lia | intros F; lia].
  - assert (En : n = batch_size + (n - batch_size)) by lia.
    set (m := n - batch_size) in *. rewrite En.
    rewrite range_step_next. cbn [map]. rewrite map_map.
    assert (Hm : length (skipn batch_size l) = m)
      by (rewrite length_skipn; lia).
    specialize (IH m ltac:(unfold batch_size in *; lia)
                  (skipn batch_size l) Hm).
    unfold batches_of in IH. rewrite Hm in IH.
    destruct IH as (Hcat & Hnum & Hlen).
    assert (Hmap : map (fun i => slice (batch_size + i) (batch_size + i + batch_size) l)
                     (range_step m batch_size)
                   = map (fun i => slice i (i + batch_size) (skipn batch_size l))
                       (range_step m batch_size)).
    { apply map_ext. intros i.
      replace (batch_size + i + batch_size) with (batch_size + (i + batch_size)) by lia.
      apply slice_shift. }
    rewrite Hmap. cbn [concat length]. rewrite Hcat.
    change (slice 0 (0 + batch_size) l) with (firstn batch_size l).
    rewrite firstn_skipn. split; [reflexivity|]. split.
    + rewrite Hnum. unfold batch_size.
      replace (10 + m + 9) with (1 * 10 + (m + 9)) by lia.
      rewrite Nat.div_add_l by lia. lia.
    + intros j b H. destruct j as [|j]; cbn [nth_error] in H.
      * assert (Hb : b = firstn batch_size l) by congruence.
        rewrite Hb, length_firstn. unfold batch_size in *. lia.
      * apply Hlen in H. destruct H as [H1 H2]. split; [exact H1|].
        intros Hj. apply H2. lia.
Qed.

Section Saving.

Context {markup tag element W : Type}.
Context {soup_ops : Soup markup tag}.
Context {world_ops : World W markup element}.

Lemma fresh_ids_returns (batch : list Document) :
  forall w, exists ids w',
    fresh_ids batch w = (inr ids, w') /\ ids_drawn batch w ids w'.
Proof.
  induction batch as [|a batch IH]; intros w; simpl.
  - exists [], w. split; [reflexivity | constructor].
  - unfold bind, ret. destruct (uuid4 w) as [id w1] eqn:Eu. simpl.
    destruct (IH w1) as (ids & w' & E & Hd). rewrite E.
    exists (id :: ids), w'. split; [reflexivity|].
    eapply drawn_next; eassumption.
Qed.

Lemma half_second_accepted : accepted HALF_SECOND.
Proof. unfold accepted, HALF_SECOND, NS_MAX. lia. Qed.

(** Every start index gets its batch handed over, whatever became of
    the batches before it. *)
Lemma save_batches_returns (documents : list Document) (starts : list nat) :
  forall (total : nat) (w : W),
  exists log w',
    save_batches documents starts total w
      = (inr (total + saved_docs log), w') /\
    handed_over log w w' /\
    map fst log = map (fun i => slice i (i + batch_size) documents) starts.
Proof.
  induction starts as [|i starts IH]; intros total w; cbn [save_batches].
  - exists [], w. unfold ret, saved_docs. simpl. rewrite Nat.add_0_r.
    split; [reflexivity|]. split; [constructor | reflexivity].
  - set (batch := slice i (i + batch_size) documents).
    unfold bind at 1.
    destruct (fresh_ids_returns batch w) as (ids & w1 & Eids & Hids).
    rewrite Eids. unfold bind at 1, try_except, bind at 1, ret at 1 2.
    destruct (add_documents batch ids w1) as [[e|[]] w2] eqn:Eadd.
    + unfold bind, ret at 1.
      destruct (IH total w2) as (log & w' & E & Hlog & Hmap). rewrite E.
      exists ((batch, false) :: log), w'. simpl. rewrite Hmap.
      split; [reflexivity|]. split; [|reflexivity].
      eapply handed_refused; eassumption.
    + unfold bind. rewrite (time_sleep_accepted _ half_second_accepted).
      destruct (IH (total + length batch) (sleep HALF_SECOND w2))
        as (log & w' & E & Hlog & Hmap). rewrite E.
      exists ((batch, true) :: log), w'. unfold saved_docs. simpl.
      fold (saved_docs log). rewrite Hmap, Nat.add_assoc.
      split; [reflexivity|]. split; [|reflexivity].
      eapply handed_saved; eassumption.
Qed.

Lemma saved_docs_le (log : list (list Document * bool)) :
  saved_docs log <= length (concat (map fst log)).
Proof.
  unfold saved_docs. induction log as [|[b ok] log IH]; simpl; [lia|].
  rewrite length_app. destruct ok; lia.
Qed.

(** A call hands every batch of the list over, in order, and counts the
    documents of those whose add returned. *)
Lemma save_to_pinecone_handed_over (documents : list Document) (w : W) :
  exists log w',
    save_to_pinecone documents w = (inr (saved_docs log), w') /\
    handed_over log w w' /\
    map fst log = batches_of documents.
Proof.
  destruct documents as [|d documents].
  - exists [], w. split; [reflexivity|]. split; [constructor | reflexivity].
  - unfold save_to_pinecone, try_except.
    set (docs := d :: documents).
    destruct (save_batches_returns docs
                (range_step (length docs) batch_size) 0 w)
      as (log & w' & E & Hlog & Hmap).
    rewrite E. now exists log, w'.
Qed.

(** C8: [save_to_pinecone] cuts the documents into batches of 10, the
    last one possibly smaller; every batch is handed to the vector
    store, in order, with ids drawn for it, whether or not the add of
    an earlier one raised; the call itself does not raise; and the
    count returned is the number of documents in the batches whose add
    returned. *)
Theorem save_to_pinecone_batches (documents : list Document) (w : W) :
  exists log w',
    save_to_pinecone documents w = (inr (saved_docs log), w') /\
    handed_over log w w' /\
    concat (map fst log) = documents /\
    length log = (length documents + 9) / 10 /\
    (forall j batch,
        nth_error (map fst log) j = Some batch ->
        1 <= length batch <= 10 /\
        (S j < length log -> length batch = 10)).
Proof.
  destruct (save_to_pinecone_handed_over documents w)
    as (log & w' & E & Hlog & Hmap).
  exists log, w'.
  destruct (@batches_facts _ (length documents) documents eq_refl)
    as (Hcat & Hnum & Hlen).
  rewrite <- Hmap in Hcat, Hnum, Hlen. rewrite length_map in Hnum, Hlen.
  split; [exact E|]. split; [exact Hlog|]. split; [exact Hcat|].
  split; [exact Hnum|].
  intros j batch Hj. apply Hlen in Hj. unfold batch_size in Hj. exact Hj.
Qed.

Lemma save_to_pinecone_returns (documents : list Document) (w : W) :
  exists saved w',
    save_to_pinecone documents w = (inr saved, w') /\
    saved <= length documents.
Proof.
  destruct (save_to_pinecone_handed_over documents w)
    as (log & w' & E & _ & Hmap).
  exists (saved_docs log), w'. split; [exact E|].
  destruct (@batches_facts _ (length documents) documents eq_refl)
    as (Hcat & _).
  rewrite <- Hmap in Hcat.
  pose proof (saved_docs_le log) as Hle. now rewrite Hcat in Hle.
Qed.

End Saving.

(** ** The run *)

Section Run.

Context {markup tag element W : Type}.
Context {soup_ops : Soup markup tag}.
Context {world_ops : World W markup element}.
Context {set_order : SetOrder}.

Lemma create_documents_tagged (jobs : list dict) :
  Forall tagged jobs ->
  exists documents,
    create_documents jobs = inr documents /\
    length documents = length jobs.
Proof.
  induction 1 as [|job jobs [_ Hmeta] _ (docs & E & Hlen)]; simpl.
  - now exists [].
  - unfold document_of. rewrite Hmeta, E. eexists. split; [reflexivity|].
    simpl. now rewrite Hlen.
Qed.

Lemma save_raw_data_returns (jobs : list dict) (w : W) :
  exists backup w', save_raw_data jobs w = (inr backup, w').
Proof.
  unfold save_raw_data, bind, observe, try_except, ret.
  destruct (write_json _ jobs w) as [[e|[]] w']; eauto.
Qed.



End Run.

(** ** Runs against the stub *)

Import Stub.

Example twelve_cards_in_insertion_order :
  fst (collect_job_links (crawler 10) twelve_cards)
  = inr (map u (firstn 10 twelve)).
Proof. vm_compute. reflexivity. Qed.

(** Ten of the twelve also when the cards load in two steps. *)
Example twelve_cards_loading :
  collect_job_links (crawler 10) Pages.loading_listing
  = (inr (map u (firstn 10 twelve)), []).
Proof. vm_compute. reflexivity. Qed.

Example parse_detail_second_attempt :
  fst (parse_detail (u "/wd/1") 2
         [Done; Raises "TimeoutException"; Done; Done; Done; Done;
          Shows (posting "Dev" "ACME")])
  = inr (Some (result_of (u "https://www.wanted.co.kr/wd/1")
                 (posting "Dev" "ACME"))).
Proof. vm_compute. reflexivity. Qed.

Example parse_detail_blank_pages :
  parse_detail (u "/wd/1") 2
    [Done; Done; Done; Done; Shows blank; Done; Done; Done; Done; Shows blank]
  = (inr None, []).
Proof. vm_compute. reflexivity. Qed.

(** Markup the parser rejects costs the attempt, not the fetch. *)
Example parse_detail_rejected_markup :
  parse_detail (u "/wd/1") 2
    [Done; Done; Done; Done; Shows Pages.garbled;
     Done; Done; Done; Done; Shows (posting "Dev" "ACME")]
  = (inr (Some (result_of (u "https://www.wanted.co.kr/wd/1")
                  (posting "Dev" "ACME"))), []).
Proof. vm_compute. reflexivity. Qed.

Example blank_page_all_absent :
  Forall (absent blank)
         (u "title" :: u "company" :: u "마감일" :: u "근무지역" :: SECTION_KEYS).
Proof.
  repeat apply Forall_cons; try apply Forall_nil.
  - now apply absent_title.
  - now apply absent_company.
  - now apply absent_due_date.
  - now apply absent_work_location.
  - apply absent_section; [vm_compute; tauto | reflexivity | intros ? ? []].
  - apply absent_section; [vm_compute; tauto | reflexivity | intros ? ? []].
  - apply absent_section; [vm_compute; tauto | reflexivity | intros ? ? []].
  - apply absent_section; [vm_compute; tauto | reflexivity | intros ? ? []].
  - apply absent_section; [vm_compute; tauto | reflexivity | intros ? ? []].
  - apply absent_section; [vm_compute; tauto | reflexivity | intros ? ? []].
Qed.

(** The void counter ends the loop by itself: one cycle finds the five
    links, three more find nothing, and the cap of 500 is never reached. *)
Example three_void_cycles_stop :
  match discover (enough 500) (crawler 500) growing_without_cards with
  | (inr (Some (links, tr)), w) =>
    links = map u five /\
    map report tr =
      [(5, Some 1000%Z, false, 0); (0, Some 2000%Z, false, 1);
       (0, Some 3000%Z, false, 2); (0, Some 4000%Z, false, 3)] /\
    w = []
  | _ => False
  end.
Proof. vm_compute. repeat split. Qed.

(** So does the height: the second cycle measures what the first left. *)
Example stable_height_stops :
  match discover (enough 500) (crawler 500) settled with
  | (inr (Some (links, tr)), w) =>
    links = map u five /\
    map report tr = [(5, Some 1000%Z, false, 0); (0, Some 1000%Z, true, 1)] /\
    w = []
  | _ => False
  end.
Proof. vm_compute. repeat split. Qed.

(** C1 (as stated) fails for a negative cap: nothing is returned, and
    nothing is still more than the cap. *)
Lemma collect_job_links_negative_cap :
  exists links,
    fst (collect_job_links (crawler (-1)) twelve_cards) = inr links /\
    ~ within_cap (crawler (-1)) links.
Proof.
  exists []. split; [vm_compute; reflexivity|].
  intros [H _]. vm_compute in H. now apply H.
Qed.

(** C3 (as stated) fails: a set that yields its members in another order
    than they were added gives ten of the twelve links, but not the first
    ten shown. *)
Lemma collect_job_links_not_first_shown :
  exists links,
    fst (collect_job_links (set_order := reverse_order) (crawler 10) twelve_cards)
      = inr links /\
    length links = 10 /\
    links <> first_shown (crawler 10) (map u twelve).
Proof.
  eexists. split; [vm_compute; reflexivity|]. split; [reflexivity|].
  vm_compute. discriminate.
Qed.

(** C4 (as stated) fails: the first cycle finds a link, the second raises,
    and [collect_job_links] returns the empty list instead of the link
    found. *)
Lemma collect_job_links_drops_found :
  exists c w1,
    cycle 10 1200000000 start (skipn 2 failing_listing) = (inr c, w1) /\
    hrefs (next c) = [u "/wd/1"] /\ broke c = false /\
    fst (cycle 10 1200000000 (next c) w1)
      = inl (Exception "WebDriverException") /\
    fst (collect_job_links (crawler 10) failing_listing) = inr [] /\
    [] <> hrefs (next c).
Proof.
  do 2 eexists. split; [vm_compute; reflexivity|].
  repeat split; try (vm_compute; reflexivity). discriminate.
Qed.

(** C6 (as stated) fails: on markup the parser rejects the extraction
    raises, and no record comes of it. *)
Lemma extract_record_rejected_markup :
  extract_record (u "https://www.wanted.co.kr/wd/1") Pages.garbled
    = inl (Exception "ParserRejectedMarkup") /\
  forall r : dict,
    extract_record (u "https://www.wanted.co.kr/wd/1") Pages.garbled <> inr r.
Proof. split; [reflexivity | discriminate]. Qed.


(** The same when every detail fetch fails. *)
Example run_without_details :
  (exists w, established blank_posting (crawler 1) w) /\
  main blank_posting = (inr None, []).
Proof.
  split.
  - do 3 eexists. repeat split; vm_compute; reflexivity.
  - vm_compute. reflexivity.
Qed.

(** And when the delay between two fetches is negative: the posting is
    fetched, [time.sleep] raises, and the run ends with its exception
    once the browser has quit. *)
Example run_with_refused_delay :
  (exists w, established Pages.refused_delay Pages.hasty w) /\
  main Pages.refused_delay = (inl (Exception "ValueError"), []).
Proof.
  split.
  - do 3 eexists. repeat split; vm_compute; reflexivity.
  - vm_compute. reflexivity.
Qed.

(** And when the summary log cannot be written: the exception of the
    append ends the run. *)
Example run_with_failed_append :
  (exists w, established Pages.failed_append (crawler 1) w) /\
  main Pages.failed_append = (inl (Exception "PermissionError"), []).
Proof.
  split.
  - do 3 eexists. repeat split; vm_compute; reflexivity.
  - vm_compute. reflexivity.
Qed.

(** A refused batch leaves a summary with nothing saved. *)
Example run_with_refused_batch :
  exists summary,
    main refused_batch = (inr (Some summary), []) /\
    total_links summary = 1 /\ total_crawled summary = 1 /\
    total_saved summary = 0.
Proof. eexists. split; [vm_compute; reflexivity|]. repeat split. Qed.

(** Of twelve documents whose first batch of ten is refused, the two of
    the second batch are saved. *)
Example second_batch_saved :
  save_to_pinecone (map Pages.doc (seq 0 12)) Pages.first_batch_refused
  = (inr 2, []).
Proof. vm_compute. reflexivity. Qed.


(** * Further properties *)

(** ** Normalisation *)

Lemma starts_with_length (p s : str) :
  starts_with p s = true -> length p <= length s.
Proof.
  revert s. induction p as [|a p IH]; intros [|b s] H; simpl in *;
    try lia; try discriminate.
  apply andb_true_iff in H. destruct H as [_ H]. apply IH in H. lia.
Qed.

(** A replacement by a text no longer than the pattern does not lengthen
    the text, and shortens it when the new text is shorter and the
    pattern occurs. *)
Lemma replace_from_length (old new : str) :
  length new <= length old ->
  forall s k, k <= length s ->
              length (replace_from k old new s) + k <= length s.
Proof.
  intros Hn. induction s as [|c s IH]; intros k Hk; simpl in *; [lia|].
  destruct k as [|k].
  - destruct (starts_with old (c :: s)) eqn:E.
    + apply starts_with_length in E. simpl in E. rewrite length_app.
      specialize (IH (length old - 1) ltac:(lia)). lia.
    + simpl. specialize (IH 0 ltac:(lia)). lia.
  - specialize (IH k ltac:(lia)). lia.
Qed.

Lemma replace_length (old new s : str) :
  old <> [] -> length new <= length old ->
  length (replace old new s) <= length s.
Proof.
  intros Ho Hn. unfold replace. destruct old as [|o old]; [congruence|].
  pose proof (@replace_from_length (o :: old) new Hn s 0 ltac:(lia)). lia.
Qed.

Lemma replace_from_shorter (old new : str) :
  length new < length old ->
  forall s k, k <= length s -> occurs old (skipn k s) = true ->
              length (replace_from k old new s) + k < length s.
Proof.
  intros Hn. induction s as [|c s IH]; intros k Hk Ho.
  - destruct k; simpl in Ho; destruct old; simpl in *; try lia; discriminate.
  - destruct k as [|k]; simpl in Hk.
    + simpl skipn in Ho. simpl replace_from.
      destruct (starts_with old (c :: s)) eqn:E.
      * apply starts_with_length in E. simpl in E. rewrite length_app.
        pose proof (@replace_from_length old new ltac:(lia) s
                      (length old - 1) ltac:(lia)).
        simpl. lia.
      * simpl in Ho. rewrite E in Ho. simpl in Ho.
        specialize (IH 0 ltac:(lia) Ho). simpl. lia.
    + simpl. specialize (IH k ltac:(lia) Ho). lia.
Qed.

Lemma replace_shorter (old new s : str) :
  length new < length old -> occurs old s = true ->
  length (replace old new s) < length s.
Proof.
  intros Hn Ho. unfold replace. destruct old as [|o old]; [simpl in Hn; lia|].
  pose proof (@replace_from_shorter (o :: old) new Hn s 0 ltac:(lia) Ho). lia.
Qed.

(** A pattern that does not occur leaves the text as it is. *)
Lemma replace_absent (old new s : str) :
  occurs old s = false -> replace old new s = s.
Proof.
  unfold replace. destruct old as [|o old].
  - destruct s; discriminate.
  - induction s as [|c s IH]; intros H; [reflexivity|].
    simpl in H. apply orb_false_iff in H. destruct H as [H1 H2].
    simpl replace_from. simpl starts_with. rewrite H1. now rewrite IH.
Qed.

Lemma occurs_char (c : N) (s : str) : occurs [c] s = false <-> ~ In c s.
Proof.
  induction s as [|a s IH]; simpl; [tauto|].
  rewrite andb_true_r, orb_false_iff, IH, N.eqb_neq. intuition congruence.
Qed.

Lemma lstrip_length (s : str) : length (lstrip s) <= length s.
Proof.
  induction s as [|c s IH]; simpl; [lia|]. destruct (is_space c); simpl; lia.
Qed.

Lemma strip_length (s : str) : length (strip s) <= length s.
Proof.
  unfold strip, rstrip. rewrite length_rev.
  pose proof (lstrip_length (rev (lstrip s))) as H. rewrite length_rev in H.
  pose proof (lstrip_length s). lia.
Qed.

(** Text with no whitespace at either end is left as it is. *)
Lemma strip_trimmed_same (s : str) : trimmed s -> strip s = s.
Proof.
  destruct s as [|c s]; [reflexivity|]. intros [Hc Hl].
  unfold strip, rstrip. simpl lstrip at 2. rewrite Hc.
  destruct (rev (c :: s)) as [|a r] eqn:E.
  - apply (f_equal (@length N)) in E. rewrite length_rev in E. discriminate.
  - assert (Es : c :: s = rev r ++ [a]).
    { rewrite <- (rev_involutive (c :: s)), E. reflexivity. }
    rewrite Es, last_last in Hl. simpl. rewrite Hl. simpl. now rewrite Es.
Qed.

(** The normalisation of a string leaves none of the single characters
    it removes. *)
Lemma clean_str_normalised (s : str) : single_junk_free (clean_str s).
Proof.
  unfold single_junk_free, clean_str. split; [apply strip_trimmed|].
  repeat split; intros H; apply strip_in in H; revert H.
  - do 6 later_replace. apply replace_char_absent, in_nil.
  - do 5 later_replace. apply replace_char_absent, in_nil.
  - do 1 later_replace. apply replace_char_absent, in_nil.
  - apply replace_char_absent, not_in_space. discriminate.
  - do 4 later_replace. apply replace_char_absent, not_in_space. discriminate.
Qed.

Lemma clean_normalised (x : pyobj) : single_junk_free (clean x).
Proof.
  destruct x; try apply clean_str_normalised;
    (split; [exact I | repeat split; intros []]).
Qed.

(** X1: [clean] never returns a text longer than its input. *)
Theorem clean_not_longer (s : str) :
  length (clean (PyStr s)) <= length s.
Proof.
  unfold clean, clean_str.
  eapply Nat.le_trans; [apply strip_length|].
  repeat (eapply Nat.le_trans;
          [apply replace_length; [discriminate | simpl; lia]|]).
  apply Nat.le_refl.
Qed.

(** X2: every character of the output of [clean] is a character of the
    input or a space: [clean] makes no other character up. *)
Theorem clean_only_adds_spaces (s : str) :
  Forall (fun c => In c s \/ c = SPACE) (clean (PyStr s)).
Proof.
  apply Forall_forall. intros c H. unfold clean, clean_str in H.
  apply strip_in in H.
  repeat (apply replace_in in H;
          destruct H as [H|H];
          [|simpl in H; intuition (subst; auto)]).
  now left.
Qed.

(** X3: the texts [clean] leaves unchanged are exactly those already
    free of every junk token: trimmed, with no bullet marker, zero-width
    space, non-breaking space, newline, backslash-n or doubled space. *)
Theorem clean_fixed_points (s : str) :
  clean (PyStr s) = s <-> junk_free s.
Proof.
  unfold clean. split.
  - intros H.
    pose proof (clean_str_normalised s) as Hn. rewrite H in Hn.
    destruct Hn as (Ht & Hb & Hq & Hz & Hnb & Hnl).
    assert (E3 : replace [NEWLINE] [SPACE]
                   (replace [BLACK_SQUARE] [] (replace [BULLET] [] s)) = s).
    { rewrite (replace_absent [BULLET]) by (now apply occurs_char).
      rewrite (replace_absent [BLACK_SQUARE]) by (now apply occurs_char).
      now rewrite (replace_absent [NEWLINE]) by (now apply occurs_char). }
    assert (Hlen : forall t,
               length (strip (replace [NBSP] [SPACE] (replace [ZWSP] [] t)))
               <= length t).
    { intros t. eapply Nat.le_trans; [apply strip_length|].
      eapply Nat.le_trans;
        [apply replace_length; [discriminate | simpl; lia]|].
      apply replace_length; [discriminate | simpl; lia]. }
    assert (Hbn : occurs BACKSLASH_N s = false).
    { destruct (occurs BACKSLASH_N s) eqn:Ho; [|reflexivity].
      exfalso. apply (f_equal (@length N)) in H.
      unfold clean_str in H. rewrite E3 in H.
      pose proof (@replace_shorter BACKSLASH_N [SPACE] s
                    ltac:(simpl; lia) Ho) as H4.
      pose proof (@replace_length DOUBLE_SPACE [SPACE]
                    (replace BACKSLASH_N [SPACE] s)
                    ltac:(discriminate) ltac:(simpl; lia)) as H5.
      pose proof (Hlen (replace DOUBLE_SPACE [SPACE]
                          (replace BACKSLASH_N [SPACE] s))) as H6.
      lia. }
    assert (Hds : occurs DOUBLE_SPACE s = false).
    { destruct (occurs DOUBLE_SPACE s) eqn:Ho; [|reflexivity].
      exfalso. apply (f_equal (@length N)) in H.
      unfold clean_str in H. rewrite E3 in H.
      rewrite (replace_absent BACKSLASH_N) in H by assumption.
      pose proof (@replace_shorter DOUBLE_SPACE [SPACE] s
                    ltac:(simpl; lia) Ho) as H5.
      pose proof (Hlen (replace DOUBLE_SPACE [SPACE] s)) as H6.
      lia. }
    unfold junk_free. tauto.
  - intros (Ht & Hb & Hq & Hz & Hnb & Hnl & Hbn & Hds).
    unfold clean_str.
    rewrite (replace_absent [BULLET]) by (now apply occurs_char).
    rewrite (replace_absent [BLACK_SQUARE]) by (now apply occurs_char).
    rewrite (replace_absent [NEWLINE]) by (now apply occurs_char).
    rewrite (replace_absent BACKSLASH_N) by assumption.
    rewrite (replace_absent DOUBLE_SPACE) by assumption.
    rewrite (replace_absent [ZWSP]) by (now apply occurs_char).
    rewrite (replace_absent [NBSP]) by (now apply occurs_char).
    now apply strip_trimmed_same.
Qed.

(** ** Extracted records *)

Lemma find_app {A} (f : A -> bool) (l l' : list A) :
  List.find f (l ++ l') =
  match List.find f l with Some x => Some x | None => List.find f l' end.
Proof.
  induction l as [|a l IH]; simpl; [reflexivity|].
  destruct (f a); [reflexivity | exact IH].
Qed.

Lemma dict_has_keys (k : str) (d e : dict) :
  dict_keys d = dict_keys e -> dict_has k d = dict_has k e.
Proof.
  intros H. unfold dict_has.
  destruct (dict_get k d) eqn:Ed, (dict_get k e) eqn:Ee; try reflexivity.
  - apply dict_get_none_keys in Ee. rewrite <- H in Ee.
    apply dict_get_none_keys in Ee. congruence.
  - apply dict_get_none_keys in Ed. rewrite H in Ed.
    apply dict_get_none_keys in Ed. congruence.
Qed.

Lemma dict_set_clean_valued (k s : str) (d : dict) :
  single_junk_free s -> clean_valued d ->
  clean_valued (dict_set k (PyStr s) d).
Proof.
  intros Hs. unfold clean_valued.
  induction 1 as [|[k' v'] d Hv Hd IH]; simpl.
  - repeat constructor. now exists s.
  - destruct (str_eqb k k'); constructor; simpl; eauto.
Qed.

Lemma empty_normalised : single_junk_free [].
Proof. split; [exact I | repeat split; intros []]. Qed.

Section Records.

Context {markup tag : Type} {soup_ops : Soup markup tag}.

Lemma extract_block_normalised (div : tag) :
  single_junk_free (extract_block div).
Proof.
  unfold extract_block. destruct (select_one _ div); apply clean_normalised.
Qed.

Lemma detail_clean_valued (soup : tag) : clean_valued (detail_of soup).
Proof.
  assert (E : clean_valued empty_detail).
  { unfold empty_detail, clean_valued. apply Forall_forall.
    intros kv H. apply in_map_iff in H. destruct H as [k [<- _]].
    exists []. split; [reflexivity | apply empty_normalised]. }
  unfold detail_of. apply fold_section_step.
  - intros d div H. unfold section_step.
    destruct (find (u "h3") None div); [|exact H].
    destruct (dict_has _ d); [|exact H].
    apply dict_set_clean_valued; [apply extract_block_normalised | exact H].
  - destruct (select_one INTRO_DIV soup); [|exact E].
    apply dict_set_clean_valued; [apply extract_block_normalised | exact E].
Qed.

Lemma due_date_normalised (soup : tag) : single_junk_free (due_date_of soup).
Proof.
  unfold due_date_of.
  repeat match goal with
         | |- context [match ?x with _ => _ end] => destruct x
         end;
    first [apply clean_normalised | apply empty_normalised].
Qed.

Lemma work_location_normalised (soup : tag) :
  single_junk_free (work_location_of soup).
Proof.
  unfold work_location_of.
  repeat match goal with
         | |- context [match ?x with _ => _ end] => destruct x
         end;
    first [apply clean_normalised | apply empty_normalised].
Qed.

(** X4: in the record extracted from a page, the address is the one
    given and every other field is a normalised text: trimmed, with no
    bullet marker, zero-width space, non-breaking space or newline.
    When no record is extracted, it is the parser that raised. *)
Theorem extract_record_normalised (url : str) (page : markup) :
  match extract_record url page with
  | inr r =>
    dict_get (u "url") r = Some (PyStr url) /\
    clean_valued (tl r) /\
    dict_keys (tl r) = tl RECORD_KEYS
  | inl e => BeautifulSoup page = inl e
  end.
Proof.
  unfold extract_record.
  destruct (BeautifulSoup page) as [e|soup]; [reflexivity|].
  split; [rewrite result_of_app; reflexivity|].
  split.
  - rewrite result_of_app. cbn [tl app]. unfold clean_valued.
    repeat (apply Forall_cons; [eexists; split; [reflexivity|]|]).
    + unfold title_of. destruct (select_one _ _);
        [apply clean_normalised | apply empty_normalised].
    + unfold company_of. destruct (select_one _ _);
        [apply clean_normalised | apply empty_normalised].
    + apply due_date_normalised.
    + apply work_location_normalised.
    + apply detail_clean_valued.
  - pose proof (result_of_keys url soup) as H.
    destruct (result_of url soup); [discriminate H|].
    simpl in H. injection H as _ H. exact H.
Qed.

(** A block the loop passes leaves the entry of [key] to the last block
    headed by [key]. *)
Lemma fold_section_step_last (key : str) (divs : list tag) :
  forall d,
    dict_has key d = true ->
    dict_get key (fold_left section_step divs d) =
    match List.find (heading_is key) (rev divs) with
    | Some div => Some (PyStr (extract_block div))
    | None => dict_get key d
    end.
Proof.
  induction divs as [|div divs IH]; intros d Hd; [reflexivity|].
  simpl fold_left. simpl rev. rewrite find_app.
  rewrite IH by (rewrite <- Hd; apply dict_has_keys, section_step_keys).
  destruct (List.find (heading_is key) (rev divs)); [reflexivity|].
  simpl. unfold heading_is, section_step.
  destruct (find (u "h3") None div) as [h3|]; [|reflexivity].
  destruct (str_eqb (clean (PyStr (text h3))) key) eqn:E.
  - apply str_eqb_eq in E. rewrite E, Hd. apply dict_get_set_same.
  - apply str_eqb_neq in E.
    destruct (dict_has (clean (PyStr (text h3))) d); [|reflexivity].
    apply dict_get_set_other. congruence.
Qed.

(** X5: under each of the six section keys the record extracted from a
    page the parser accepts holds the body of the last block whose
    heading normalises to that key; blocks under any other heading are
    ignored; with no such block the position detail is the body of its
    own container when there is one, and every other section is
    empty. *)
Theorem extract_record_section
    (url key : str) (page : markup) (soup : tag) :
  In key SECTION_KEYS ->
  BeautifulSoup page = inr soup ->
  exists r,
    extract_record url page = inr r /\
    dict_get key r = Some (PyStr (section_value key soup)).
Proof.
  intros Hkey Hsoup. unfold extract_record. rewrite Hsoup.
  exists (result_of url soup). split; [reflexivity|].
  unfold section_value.
  rewrite result_of_section by assumption. unfold detail_of.
  assert (Hhas : forall d, dict_keys d = SECTION_KEYS -> dict_has key d = true).
  { intros d Hd. unfold dict_has.
    destruct (dict_get key d) eqn:E; [reflexivity|].
    apply dict_get_none_keys in E. now rewrite Hd in E. }
  rewrite fold_section_step_last.
  - destruct (List.find _ _); [reflexivity|].
    destruct (select_one INTRO_DIV soup) as [intro|].
    + destruct (str_eqb key (u "포지션상세")) eqn:E.
      * apply str_eqb_eq in E. subst key. apply dict_get_set_same.
      * apply str_eqb_neq in E. rewrite dict_get_set_other by assumption.
        rewrite empty_detail_get by assumption. reflexivity.
    + rewrite empty_detail_get by assumption.
      now destruct (str_eqb key (u "포지션상세")).
  - apply Hhas. destruct (select_one INTRO_DIV soup); [|reflexivity].
    now apply dict_set_keys.
Qed.

End Records.

Lemma extract_record_section_witness :
  In (u "주요업무") SECTION_KEYS /\
  exists r,
    extract_record (u "x") (Stub.Html Pages.repeated_heading) = inr r /\
    dict_get (u "주요업무") r = Some (PyStr (u "second")).
Proof.
  assert (H : In (u "주요업무") SECTION_KEYS) by (vm_compute; tauto).
  assert (P : BeautifulSoup (Stub.Html Pages.repeated_heading)
              = inr Pages.repeated_heading) by reflexivity.
  split; [exact H|].
  destruct (@extract_record_section _ _ _ (u "x") _ _ _ H P) as (r & E & G).
  exists r. split; [exact E|]. rewrite G. vm_compute. reflexivity.
Defined.

(** ** Fetched records *)

(** An update stores each of its entries; a key it does not mention
    keeps its value. *)
Lemma dict_update_get (k : str) (e d : dict) :
  dict_get k (dict_update d e) =
  match dict_get k (rev e) with
  | Some v => Some v
  | None => dict_get k d
  end.
Proof.
  unfold dict_update. revert d.
  induction e as [|[k' v'] e IH]; intros d; simpl; [reflexivity|].
  rewrite IH, dict_get_app. destruct (dict_get k (rev e)); [reflexivity|].
  simpl. destruct (str_eqb k k') eqn:E.
  - apply str_eqb_eq in E. subst. apply dict_get_set_same.
  - apply str_eqb_neq in E. now apply dict_get_set_other.
Qed.

Lemma sorted_snoc (l : list Z) (x : Z) :
  StronglySorted Z.lt l -> Forall (fun y => (y < x)%Z) l ->
  StronglySorted Z.lt (l ++ [x]).
Proof.
  induction 1 as [|a l Hs IH Ha]; intros Hx; simpl.
  - repeat constructor.
  - inversion Hx; subst. constructor; [now apply IH|].
    apply Forall_app. split; [assumption | now repeat constructor].
Qed.

Section Crawled.

Context {markup tag element W : Type}.
Context {soup_ops : Soup markup tag}.
Context {world_ops : World W markup element}.

(** A record an attempt returns is the extraction of the page the
    browser then showed. *)
Lemma attempt_record (url : str) (w w' : W) (r : dict) :
  attempt url w = (inr (Some r), w') ->
  exists w0 page,
    page_source w0 = (inr page, w') /\ extract_record url page = inr r.
Proof.
  unfold attempt, bind, ret, lift. intros H.
  destruct (driver_get url w) as [[e|[]] w1]; [discriminate|].
  destruct (wait_presence 10 (u "h1, h2") w1) as [[e|[]] w2]; [discriminate|].
  destruct (try_except _ _ w2) as [[e|[]] w3]; [discriminate|].
  destruct (page_source w3) as [[e|page] w4] eqn:Ep; [discriminate|].
  destruct (BeautifulSoup page) as [e|soup] eqn:Es; [discriminate|].
  destruct (truthy _ || truthy _); inversion H; subst.
  exists w3, page. split; [exact Ep|]. unfold extract_record. now rewrite Es.
Qed.

Lemma parse_attempts_record (n : nat) (url : str) :
  forall (w w' : W) (r : dict),
    parse_attempts n url w = (inr (Some r), w') ->
    exists w0 page,
      page_source w0 = (inr page, w') /\ extract_record url page = inr r.
Proof.
  induction n as [|n IH]; intros w w' r H; [discriminate H|].
  rewrite parse_attempts_next in H.
  destruct (attempt url w) as [[e|[r0|]] w1] eqn:E; try (now apply IH in H).
  inversion H; subst. now apply attempt_record in E.
Qed.

(** The address of a record [parse_detail] returns. *)
Lemma parse_detail_url (href : str) (retry : Z) (w w' : W) (r : dict) :
  parse_detail href retry w = (inr (Some r), w') ->
  dict_get (u "url") r = Some (PyStr (BASE_URL ++ href)).
Proof.
  intros E. apply parse_attempts_record in E.
  destruct E as (w0 & page & _ & E). unfold extract_record in E.
  destruct (BeautifulSoup page) as [e|soup]; [discriminate|].
  inversion E; subst. now rewrite result_of_app.
Qed.

(** X6: a record [parse_detail] returns is the extraction of a page
    source the browser returned, the state [parse_detail] ends in being
    the state right after that read, and its address is the base address
    followed by the link. *)
Theorem parse_detail_record (href : str) (retry : Z) (w : W) :
  match parse_detail href retry w with
  | (inr (Some r), w') =>
    (exists w0 page,
        page_source w0 = (inr page, w') /\
        extract_record (BASE_URL ++ href) page = inr r) /\
    dict_get (u "url") r = Some (PyStr (BASE_URL ++ href))
  | _ => True
  end.
Proof.
  destruct (parse_detail href retry w) as [[e|[r|]] w'] eqn:E; try exact I.
  apply parse_attempts_record in E. split; [exact E|].
  destruct E as (w0 & page & _ & E). unfold extract_record in E.
  destruct (BeautifulSoup page) as [e|soup]; [discriminate|].
  inversion E; subst. now rewrite result_of_app.
Qed.

Lemma crawl_keys_fresh (r : dict) :
  dict_keys r = RECORD_KEYS ->
  forall k, In k CRAWL_KEYS -> dict_get k r = None.
Proof.
  intros Hr k Hk. apply dict_get_none_keys. rewrite Hr. intros H.
  repeat (destruct Hk as [<-|Hk]; [vm_compute in H; intuition discriminate|]).
  contradiction.
Qed.

(** The record stored for the link at index [i]. *)
Lemma stored_record (links : list str) (i : nat) (r : dict) (stamp : str) :
  i < length links ->
  usable r -> dict_keys r = RECORD_KEYS ->
  dict_get (u "url") r = Some (PyStr (BASE_URL ++ nth i links [])) ->
  fetched_from links i
    (dict_update r
       [(u "source", PyStr (u "wanted")); (u "crawled_at", PyStr stamp);
        (u "link_index", PyInt (Z.of_nat i + 1))]).
Proof.
  intros Hi Hu Hk Hurl. unfold fetched_from.
  split; [exact Hi|]. split.
  - rewrite dict_update_fresh.
    + unfold dict_keys. rewrite map_app. fold (dict_keys r). now rewrite Hk.
    + vm_compute. repeat constructor; simpl; intuition discriminate.
    + intros k H. now apply crawl_keys_fresh.
  - rewrite !dict_update_get. repeat split.
    + exact Hurl.
    + apply (tagged_update stamp (Z.of_nat i + 1) Hu Hk).
Qed.

End Crawled.

Section Positions.

Context {markup tag element W : Type}.
Context {soup_ops : Soup markup tag}.
Context {world_ops : World W markup element}.

Variable self : Crawler.
Variable links : list str.

Lemma fetched_position (i : nat) (job : dict) :
  fetched_from links i job -> position job = (Z.of_nat i + 1)%Z.
Proof. intros (_ & _ & H & _). unfold position. now rewrite H. Qed.

Lemma crawl_loop_collected (rest : list str) :
  forall (seen : list str) (jobs : list dict) (w : W),
    links = seen ++ rest ->
    collected links seen jobs ->
    match fst (crawl_loop self (length seen) rest jobs w) with
    | inr jobs' =>
      collected links links jobs' /\
      (rest = [] \/ accepted (seconds (crawl_delay self)))
    | inl _ => rest <> [] /\ ~ accepted (seconds (crawl_delay self))
    end.
Proof.
  induction rest as [|href rest IH]; intros seen jobs w Hl Hc.
  - rewrite app_nil_r in Hl. subst seen. split; [exact Hc | now left].
  - rewrite crawl_loop_next.
    pose proof (parse_detail_result href 2 w) as P.
    pose proof (fun w' r => @parse_detail_url _ _ _ _ _ _ href 2 w w' r) as U.
    destruct (parse_detail href 2 w) as [[e|job] w1]; simpl in P;
      [contradiction|].
    destruct (time_sleep_cases (seconds (crawl_delay self)) w1)
      as [[Ha E]|[Hr [e E]]]; rewrite E;
      [|simpl; split; [discriminate | assumption]].
    assert (Hseen : length (seen ++ [href]) = S (length seen))
      by (rewrite length_app; simpl; lia).
    assert (Hl' : links = (seen ++ [href]) ++ rest)
      by (now rewrite <- app_assoc).
    assert (Hnew : collected links (seen ++ [href])
                     (with_fetched jobs (length seen) (now_isoformat w1) job)).
    { destruct Hc as (Hf & Hs & Hn).
      assert (Hf' : Forall (fun j => exists i, i < length (seen ++ [href]) /\
                                                fetched_from links i j) jobs).
      { eapply Forall_impl; [|exact Hf].
        intros j (i & Hi & Hj). exists i. split; [lia | exact Hj]. }
      destruct job as [[|kv d]|]; cbn [with_fetched];
        try (split; [exact Hf' | split; [exact Hs | lia]]).
      destruct P as [Hu Hk]. specialize (U w1 (kv :: d) eq_refl).
      assert (Hi : length seen < length links).
      { rewrite Hl, length_app. simpl. lia. }
      assert (Hnth : nth (length seen) links [] = href)
        by (rewrite Hl; apply nth_middle).
      rewrite <- Hnth in U.
      pose proof (stored_record links (now_isoformat w1) Hi Hu Hk U) as Hst.
      set (new := dict_update (kv :: d) _) in *.
      split; [|split].
      - apply Forall_app. split; [exact Hf'|].
        constructor; [|constructor]. exists (length seen). split; [lia|].
        exact Hst.
      - rewrite map_app. cbn [map]. apply sorted_snoc; [assumption|].
        rewrite (fetched_position Hst). apply Forall_map.
        eapply Forall_impl; [|exact Hf].
        intros j (i & Hi' & Hj). rewrite (fetched_position Hj). lia.
      - rewrite length_app. simpl. lia. }
    specialize (IH (seen ++ [href]) _
                  (sleep (seconds (crawl_delay self)) w1) Hl' Hnew).
    rewrite Hseen in IH.
    destruct (fst (crawl_loop self (S (length seen)) rest _ _)) as [e|jobs'].
    + split; [discriminate | apply IH].
    + split; [apply IH | now right].
Qed.

Lemma crawl_job_details_collected (w : W) :
  match fst (crawl_job_details self links w) with
  | inr jobs =>
    collected links links jobs /\
    (links = [] \/ accepted (seconds (crawl_delay self)))
  | inl _ => links <> [] /\ ~ accepted (seconds (crawl_delay self))
  end.
Proof.
  apply (@crawl_loop_collected links [] [] w eq_refl).
  repeat split; [constructor | constructor | simpl; lia].
Qed.

(** X7: [crawl_job_details] raises exactly when there is a link to fetch
    and [time.sleep] refuses the delay between two fetches.  Each record
    it returns comes from one of the links: it has the 11 extracted
    fields followed by [source], [crawled_at] and [link_index]; its
    [link_index] is the 1-based position of that link, its [url] the
    base address followed by that link, its [source] is "wanted" and it
    has a title or a company.  The records are in the order of the
    links, at most one per link. *)
Theorem crawl_job_details_positions (w : W) :
  match fst (crawl_job_details self links w) with
  | inr jobs =>
    (links = [] \/ accepted (seconds (crawl_delay self))) /\
    Forall (fun job => exists i, fetched_from links i job) jobs /\
    StronglySorted Z.lt (map position jobs) /\
    length jobs <= length links
  | inl _ => links <> [] /\ ~ accepted (seconds (crawl_delay self))
  end.
Proof.
  pose proof (crawl_job_details_collected w) as H.
  destruct (fst (crawl_job_details self links w)) as [e|jobs]; [exact H|].
  destruct H as ((Hf & Hs & Hn) & Hok).
  split; [exact Hok|]. split; [|split; assumption].
  eapply Forall_impl; [|exact Hf]. intros j (i & _ & Hj). now exists i.
Qed.

End Positions.

Section Documents.

Context {markup tag element W : Type}.
Context {soup_ops : Soup markup tag}.
Context {world_ops : World W markup element}.

Lemma field_present (k : str) (job : dict) :
  In k (dict_keys job) -> dict_get k job = Some (field k job).
Proof.
  intros H. unfold field. destruct (dict_get k job) eqn:E; [reflexivity|].
  apply dict_get_none_keys in E. contradiction.
Qed.

Lemma field_missing (k : str) (job : dict) :
  ~ In k (dict_keys job) -> field k job = PyStr [].
Proof.
  intros H. unfold field. apply dict_get_none_keys in H. now rewrite H.
Qed.

(** The document of a crawled record. *)
Lemma document_of_crawled (job : dict) :
  dict_keys job = RECORD_KEYS ++ CRAWL_KEYS ->
  exists doc, document_of job = inr doc /\ document_for job doc.
Proof.
  intros Hk.
  assert (Hin : forall k, In k head_keys -> In k (dict_keys job)).
  { intros k H. rewrite Hk. apply in_or_app. left.
    unfold RECORD_KEYS. apply in_or_app. now left. }
  assert (Hout : forall k, In k [u "metadata"; u "신입경력"] ->
                           ~ In k (dict_keys job)).
  { intros k H. rewrite Hk. intros F.
    repeat (destruct H as [<-|H]; [vm_compute in F; intuition discriminate|]).
    contradiction. }
  assert (Hmeta : dict_get (u "metadata") job = None).
  { apply dict_get_none_keys, Hout. now left. }
  unfold document_of. rewrite Hmeta. eexists. split; [reflexivity|].
  unfold document_for. cbn [metadata].
  rewrite (@field_missing (u "신입경력") job) by (apply Hout; right; now left).
  repeat split; symmetry; apply field_present, Hin; vm_compute; tauto.
Qed.

(** X8: the records [crawl_job_details] returns always convert:
    [create_documents] gives one document per record, in order, whose
    metadata has the eight fixed keys, repeats the address, title,
    company, closing date and work location of the record, and holds the
    empty string under the experience level, the source file and the
    original address, which the crawler never fills.  When
    [crawl_job_details] raises instead, on a delay [time.sleep] refuses,
    there is nothing to convert. *)
Theorem create_documents_of_crawled
    (self : Crawler) (links : list str) (w : W) :
  match fst (crawl_job_details self links w) with
  | inr jobs =>
    exists documents,
      create_documents jobs = inr documents /\
      Forall2 document_for jobs documents
  | inl _ => links <> [] /\ ~ accepted (seconds (crawl_delay self))
  end.
Proof.
  pose proof (crawl_job_details_collected self links w) as H.
  destruct (fst (crawl_job_details self links w)) as [e|jobs]; [exact H|].
  destruct H as ((Hf & _) & _). induction Hf as [|job jobs [i [_ Hj]] _ IH].
  - exists []. split; [reflexivity | constructor].
  - destruct IH as (docs & E & Hdocs).
    destruct Hj as (_ & Hk & _).
    destruct (document_of_crawled job Hk) as (doc & Ed & Hdoc).
    exists (doc :: docs). simpl. rewrite Ed, E.
    split; [reflexivity | now constructor].
Qed.

End Documents.

(** ** Discovered links *)

Section Found.

Context {markup tag element W : Type}.
Context {soup_ops : Soup markup tag}.
Context {world_ops : World W markup element}.
Context {set_order : SetOrder}.

(** X9: a page scanned again adds nothing: once the links of its card
    anchors are in the set, a second scan of the same page leaves the
    set as it is, so a cycle on an unchanged page counts as void. *)
Theorem scan_twice (soup : tag) (hs : pyset) :
  scan soup (scan soup hs) = scan soup hs /\
  length (scan soup (scan soup hs)) - length (scan soup hs) = 0.
Proof.
  assert (E : scan soup (scan soup hs) = scan soup hs).
  { apply scan_known. intros h H. apply scan_members. now right. }
  rewrite E. split; [reflexivity | lia].
Qed.

(** X10: every link [collect_job_links] returns is the non-empty [href]
    of a job-card anchor of a page source read during that discovery,
    which loaded the listing, awaited the first card and ran the cycles
    that read those pages; when the discovery raises, no link is
    returned. *)
Theorem collect_job_links_shown (self : Crawler) (w : W) :
  match discover (enough (max_links self)) self w with
  | (inr (Some (links, tr)), w') =>
    collect_job_links self w = (inr links, w') /\
    exists pages,
      discovery_of self w pages tr w' /\ Forall (shown_in pages) links
  | (inl _, w') => collect_job_links self w = (inr [], w')
  | (inr None, _) => False
  end.
Proof.
  pose proof (@discover_fuel _ _ _ _ _ _ _ self (enough (max_links self)) w
                (le_n _)) as Hfuel.
  pose proof (collect_job_links_cases self w) as Hcases.
  destruct (discover _ self w) as [[e|[[links tr]|]] w'] eqn:E;
    [exact Hcases | | now apply Hfuel].
  split; [exact Hcases|].
  apply discover_run in E.
  destruct E as (-> & Hnd & _ & _ & _ & pages & Hpages & Hmem).
  exists pages. split; [exact Hpages|].
  apply Forall_forall. intros h Hh. apply Hmem.
  apply slice_to_incl in Hh.
  eapply Permutation_in; [|exact Hh]. now apply set_iter_perm.
Qed.

(** X11: with a cap that is not negative, discovery returns as many
    links as the loop found or as the cap allows, whichever is less, all
    of them found by the loop; when the loop found no more than the cap,
    it returns every link found. *)
Theorem discover_returns_found (self : Crawler) (w : W) :
  match discover (enough (max_links self)) self w with
  | (inr (Some (links, tr)), _) =>
    incl links (hrefs (final start tr)) /\
    ((0 <= max_links self)%Z ->
     length links
     = Nat.min (Z.to_nat (max_links self)) (length (hrefs (final start tr)))) /\
    ((Z.of_nat (length (hrefs (final start tr))) <= max_links self)%Z ->
     Permutation links (hrefs (final start tr)))
  | _ => True
  end.
Proof.
  destruct (discover _ self w) as [[e|[[links tr]|]] w'] eqn:E; try exact I.
  apply discover_returns in E. destruct E as (s & w1 & w2 & _ & _ & E & ->).
  apply discovery_loop_run in E. destruct E as (_ & <- & _ & Hnd & _).
  assert (Hp : Permutation (set_iter (hrefs s)) (hrefs s))
    by (apply set_iter_perm, Hnd; constructor).
  repeat split.
  - intros h Hh. apply slice_to_incl in Hh. eapply Permutation_in; eassumption.
  - intros Hmax. unfold slice_to. apply Z.leb_le in Hmax. rewrite Hmax.
    rewrite length_firstn. now rewrite (Permutation_length Hp).
  - intros Hcap. unfold slice_to.
    replace (0 <=? max_links self)%Z with true by (symmetry; apply Z.leb_le; lia).
    rewrite firstn_all2; [exact Hp|].
    rewrite (Permutation_length Hp). lia.
Qed.

(** X12: with a cap of zero or less, once the listing has loaded
    [collect_job_links] returns no link and neither reads the page nor
    scrolls. *)
Theorem collect_job_links_no_cap (self : Crawler) (w w1 w2 : W) :
  (max_links self <= 0)%Z ->
  driver_get LIST_URL w = (inr tt, w1) ->
  wait_presence 30 CARD_LINK w1 = (inr tt, w2) ->
  collect_job_links self w = (inr [], w2).
Proof.
  intros Hmax Hget Hwait.
  rewrite collect_job_links_cases. unfold discover, bind. rewrite Hget, Hwait.
  replace (enough (max_links self)) with 0 by (unfold enough; lia).
  cbn [discovery_loop].
  replace (loop_test (max_links self) start) with false
    by (symmetry; apply loop_test_false; simpl; lia).
  unfold ret. cbn [option_map fst snd hrefs start].
  pose proof (set_iter_perm (NoDup_nil str)) as P.
  apply Permutation_sym, Permutation_nil in P. rewrite P.
  unfold slice_to. destruct (0 <=? max_links self)%Z; now rewrite firstn_nil.
Qed.

End Found.

Lemma collect_job_links_no_cap_witness :
  (max_links (crawler 0) <= 0)%Z /\
  collect_job_links (crawler 0) twelve_cards
  = (inr [], [Shows (listing twelve)]).
Proof.
  assert (Hmax : (max_links (crawler 0) <= 0)%Z) by (vm_compute; discriminate).
  split; [exact Hmax|].
  apply (@collect_job_links_no_cap _ _ _ _ _ _ insertion_order (crawler 0)
           twelve_cards (skipn 1 twelve_cards) (skipn 2 twelve_cards) Hmax);
    reflexivity.
Defined.

(** ** The saved count and the run *)

(** With no empty batch, the saved documents are all of them exactly
    when no batch failed. *)
Lemma saved_docs_all (log : list (list Document * bool)) :
  Forall (fun b => 1 <= length b) (map fst log) ->
  (saved_docs log = length (concat (map fst log)) <->
   forallb snd log = true).
Proof.
  unfold saved_docs. induction log as [|[b ok] log IH]; simpl; intros H.
  - tauto.
  - inversion H as [|? ? Hb Hrest]; subst. specialize (IH Hrest).
    rewrite length_app.
    pose proof (saved_docs_le log) as Hle. unfold saved_docs in Hle.
    destruct ok; simpl.
    + rewrite <- IH. lia.
    + split; [lia | discriminate].
Qed.

Section Outcome.

Context {markup tag element W : Type}.
Context {soup_ops : Soup markup tag}.
Context {world_ops : World W markup element}.
Context {set_order : SetOrder}.

(** X13: [save_to_pinecone] does not raise; it hands every batch to the
    vector store, and the count it returns is the number of documents
    exactly when the add of every batch returned, and less than it as
    soon as one add raised. *)
Theorem save_to_pinecone_all_or_less (documents : list Document) (w : W) :
  exists log w',
    save_to_pinecone documents w = (inr (saved_docs log), w') /\
    handed_over log w w' /\
    map fst log = batches_of documents /\
    saved_docs log <= length documents /\
    (saved_docs log = length documents <-> forallb snd log = true).
Proof.
  destruct (save_to_pinecone_handed_over documents w)
    as (log & w' & E & Hlog & Hmap).
  exists log, w'.
  destruct (@batches_facts _ (length documents) documents eq_refl)
    as (Hcat & _ & Hlen).
  rewrite <- Hmap in Hcat, Hlen.
  assert (Hfull : Forall (fun b => 1 <= length b) (map fst log)).
  { apply Forall_forall. intros b Hb.
    apply In_nth_error in Hb. destruct Hb as [j Hj].
    apply Hlen in Hj. lia. }
  split; [exact E|]. split; [exact Hlog|]. split; [exact Hmap|].
  rewrite <- Hcat at 1 2. split.
  - apply saved_docs_le.
  - now apply saved_docs_all.
Qed.

(** X14: how [main] ends before the crawl starts.  When the crawler
    cannot be configured its exception propagates; when the index cannot
    be connected [main] returns normally, with no summary and without
    starting the browser; when the browser cannot be started [main]
    raises [ValueError], whatever the exception was; otherwise it runs
    the crawl and then quits the browser. *)
Theorem main_before_crawl (w : W) :
  match new_crawler w with
  | (inl e, w1) => main w = (inl e, w1)
  | (inr self, w1) =>
    match connect_index w1 with
    | (inl _, w2) => main w = (inr None, w2)
    | (inr _, w2) =>
      match start_chrome w2 with
      | (inl _, w3) => main w = (inl (Exception "ValueError"), w3)
      | (inr _, w3) =>
        main w = try_finally (crawl_and_save self) driver_quit w3
      end
    end
  end.
Proof.
  unfold main, bind, setup_pinecone_index, setup_driver, setup_chrome_driver,
    try_except, bind, ret, raise.
  destruct (new_crawler w) as [[e|self] w1]; [reflexivity|].
  destruct (connect_index w1) as [[e|[]] w2]; [reflexivity|]. cbn [negb].
  destruct (start_chrome w2) as [[e|[]] w3]; reflexivity.
Qed.

Lemma collect_job_links_length (self : Crawler) (w w1 : W) (links : list str) :
  collect_job_links self w = (inr links, w1) ->
  length links <= Z.to_nat (max_links self).
Proof.
  rewrite collect_job_links_cases.
  destruct (discover _ self w) as [[e|[[found tr]|]] w'] eqn:E; intros H;
    inversion H; subst; simpl; try lia.
  now apply discover_links in E.
Qed.

(** A summary the crawl returns is the summary of what it collected. *)
Lemma crawl_and_save_outcome (self : Crawler) (w : W) :
  match crawl_and_save self w with
  | (inr (Some summary), _) =>
    exists links jobs saved backup (w1 w2 w4 : W),
      collect_job_links self w = (inr links, w1) /\
      crawl_job_details self links w1 = (inr jobs, w2) /\
      jobs <> [] /\ saved <= length jobs /\
      summary = summary_of links jobs saved backup w4
  | _ => True
  end.
Proof.
  destruct (crawl_and_save self w) as [[e|[summary|]] w'] eqn:E; try exact I.
  unfold crawl_and_save, bind in E.
  destruct (collect_job_links self w) as [[e|[|l ls]] w1] eqn:Ec;
    try discriminate.
  pose proof (crawl_job_details_result self (l :: ls) w1) as Hj.
  destruct (crawl_job_details self (l :: ls) w1) as [[e|[|j js]] w2] eqn:Ej;
    try discriminate. simpl in Hj.
  destruct (save_raw_data_returns (j :: js) w2) as (backup & w3 & Eb).
  destruct (create_documents_tagged Hj) as (documents & Ed & Hlen).
  destruct (save_to_pinecone_returns documents w3) as (saved & w4 & Es & Hle).
  rewrite Eb, Ed, Es in E. unfold observe, ret in E.
  destruct (append_summary _ w4) as [[e|[]] w5]; inversion E; subst.
  exists (l :: ls), (j :: js), saved, backup, w1, w2, w4.
  split; [reflexivity|]. split; [exact Ej|].
  split; [discriminate|]. split; [lia | reflexivity].
Qed.

(** X15: every summary line the run appends has consistent counts: at
    least one record was crawled, no more records than links, no more
    links than the cap, and no more documents saved than records
    crawled. *)
Theorem summary_counts (self : Crawler) (w : W) :
  match crawl_and_save self w with
  | (inr (Some summary), _) =>
    1 <= total_crawled summary <= total_links summary /\
    total_links summary <= Z.to_nat (max_links self) /\
    total_saved summary <= total_crawled summary
  | _ => True
  end.
Proof.
  pose proof (crawl_and_save_outcome self w) as H.
  destruct (crawl_and_save self w) as [[e|[summary|]] w']; try exact I.
  destruct H as (links & jobs & saved & backup & w1 & w2 & w4
                 & Ec & Ej & Hne & Hs & ->).
  pose proof (crawl_job_details_collected self links w1) as Hj.
  rewrite Ej in Hj. destruct Hj as ((_ & _ & Hn) & _).
  apply collect_job_links_length in Ec. cbn.
  destruct jobs; [congruence|]. simpl in *. lia.
Qed.

(** X16: once the crawl has started, an exception it lets out is one of
    two.  Either discovery returned links and [time.sleep] refused the
    delay between two fetches: the exception is the one
    [crawl_job_details] raised.  Or records were fetched, backed up,
    converted and handed to the vector store, and the append of the
    summary of that very run raised.  Discovery, the fetches themselves,
    the backup, the conversion and the saving of batches never make the
    crawl raise. *)
Theorem crawl_and_save_exceptions (self : Crawler) (w : W) :
  match crawl_and_save self w with
  | (inl e, w') =>
    exists links w1,
      collect_job_links self w = (inr links, w1) /\ links <> [] /\
      ((crawl_job_details self links w1 = (inl e, w') /\
        ~ accepted (seconds (crawl_delay self))) \/
       (exists jobs w2 backup w3 documents saved w4,
           crawl_job_details self links w1 = (inr jobs, w2) /\
           jobs <> [] /\
           save_raw_data jobs w2 = (inr backup, w3) /\
           create_documents jobs = inr documents /\
           save_to_pinecone documents w3 = (inr saved, w4) /\
           append_summary (summary_of links jobs saved backup w4) w4
             = (inl e, w')))
  | _ => True
  end.
Proof.
  destruct (crawl_and_save self w) as [[e|r] w'] eqn:E; [|exact I].
  unfold crawl_and_save, bind in E.
  destruct (collect_job_links self w) as [[e0|[|l ls]] w1] eqn:Ec.
  - pose proof (collect_job_links_cases self w) as Hc. rewrite Ec in Hc.
    destruct (discover _ self w) as [[?|[[? ?]|]] ?]; discriminate Hc.
  - discriminate E.
  - exists (l :: ls), w1. split; [reflexivity|]. split; [discriminate|].
    pose proof (crawl_job_details_result self (l :: ls) w1) as Hj.
    destruct (crawl_job_details self (l :: ls) w1) as [[e0|[|j js]] w2] eqn:Ej;
      simpl in Hj.
    + left. inversion E; subst. split; [reflexivity | apply Hj].
    + discriminate E.
    + right.
      destruct (save_raw_data_returns (j :: js) w2) as (backup & w3 & Eb).
      destruct (create_documents_tagged Hj) as (documents & Ed & Hlen).
      destruct (save_to_pinecone_returns documents w3)
        as (saved & w4 & Es & Hle).
      rewrite Eb, Ed, Es in E. unfold observe, ret in E.
      exists (j :: js), w2, backup, w3, documents, saved, w4.
      split; [reflexivity|]. split; [discriminate|].
      split; [exact Eb|]. split; [exact Ed|]. split; [exact Es|].
      unfold summary_of.
      destruct (append_summary _ w4) as [[e0|[]] w5]; inversion E; subst.
      reflexivity.
Qed.

End Outcome.
